(** * strawberry/schema/types/type.py: the GraphQLCoreConverter

    A shallow embedding of [GraphQLCoreConverter], the class that turns
    strawberry's type definitions into graphql-core schema types, and the
    properties of it that the design document states.

    Conventions of the embedding.
    - The converter mutates one dictionary, [self.type_map], and creates
      graphql-core objects whose identity matters (two [GraphQLObjectType]
      objects of the same name are different types).  Both are threaded
      through every method as a [State]: the dictionary, and the number of
      named graphql-core types created so far, which is the identity given to
      the next one.
    - A method is a function into [M A]: it takes the state and either
      returns a value with the new state or raises an exception.
    - [field.type], [union.types] and [type_definition.origin] hold arbitrary
      Python objects, and classes refer to each other in cycles.  They are
      references ([PyRef]); [obj] reads the attributes the converter probes.
    - The closures handed to graphql-core ([fields=lambda: ...],
      [get_graphql_fields]) are kept as data ([Thunk]) and run by
      [call_thunk] against the state at the time of the call, as a closure
      over [self] does.
    - graphql-core's constructors are plain data constructors here: their
      own argument validation is outside this module.
    - Methods that can re-enter themselves through the class graph take the
      remaining call depth ([fuel]); running out of it raises
      [RecursionError], as Python does. *)

From stdpp Require Import base option list strings gmap.
From Stdlib Require Import ZArith Lia.

Set Warnings "-register-all,-clear-no-such-hyp".

(** ** Python values *)

(** Identity of a Python object held by a definition: a class, a
    [StrawberryUnion] instance, or anything else. *)
Definition PyRef := nat.

Inductive Literal :=
| LInt (z : Z)
| LStr (s : string)
| LBool (b : bool).

(** The values a default value or a subscription event can be.  [undefined]
    is [strawberry.types.types.undefined], [UNSET] is
    [strawberry.arguments.UNSET], [Undefined] is graphql-core's, [PyNone] is
    [None]. *)
Inductive PyValue :=
| undefined
| UNSET
| Undefined
| PyNone
| PyLit (l : Literal).

#[global] Instance Literal_eq_dec : EqDecision Literal.
Proof. solve_decision. Defined.
#[global] Instance PyValue_eq_dec : EqDecision PyValue.
Proof. solve_decision. Defined.

(** [x in xs] on a Python list: identity or equality with an element.  The
    sentinels are plain objects, equal only to themselves. *)
Definition py_in (x : PyValue) (xs : list PyValue) : bool :=
  bool_decide (x ∈ xs).

(** A Python [dict], in insertion order: assigning to a key that is present
    replaces its value in place. *)
Definition dict (K V : Type) := list (K * V).

Fixpoint dict_set {K V} `{EqDecision K} (k : K) (v : V) (d : dict K V) : dict K V :=
  match d with
  | [] => [(k, v)]
  | (k', v') :: d' => if decide (k = k') then (k, v) :: d' else (k', v') :: dict_set k v d'
  end.

Fixpoint dict_get {K V} `{EqDecision K} (k : K) (d : dict K V) : option V :=
  match d with
  | [] => None
  | (k', v) :: d' => if decide (k = k') then Some v else dict_get k d'
  end.

(** [{key: value for ...}] over already computed pairs. *)
Definition dict_of_pairs {K V} `{EqDecision K} (kvs : list (K * V)) : dict K V :=
  fold_left (fun d kv => dict_set kv.1 kv.2 d) kvs [].

(** ** strawberry's definitions (the converter's input) *)

Inductive ArgumentDefinition := mkArgumentDefinition {
  arg_name : option string;
  arg_type : PyRef;
  arg_child : option ArgumentDefinition;
  arg_is_list : bool;
  arg_is_optional : bool;
  arg_is_union : bool;
  arg_default_value : PyValue;
  arg_description : option string
}.

Inductive FieldDefinition := mkFieldDefinition {
  fd_name : option string;
  fd_type : PyRef;
  fd_child : option FieldDefinition;
  fd_is_list : bool;
  fd_is_optional : bool;
  fd_is_union : bool;
  fd_is_subscription : bool;
  fd_arguments : list ArgumentDefinition;
  fd_default_value : PyValue;
  fd_description : option string;
  fd_deprecation_reason : option string
}.

(** [FIELD_ARGUMENT_TYPE = Union[FieldDefinition, ArgumentDefinition]] *)
Inductive FIELD_ARGUMENT_TYPE :=
| Field (f : FieldDefinition)
| Argument (a : ArgumentDefinition).

Definition fa_type (field : FIELD_ARGUMENT_TYPE) : PyRef :=
  match field with Field f => fd_type f | Argument a => arg_type a end.

Definition fa_child (field : FIELD_ARGUMENT_TYPE) : option FIELD_ARGUMENT_TYPE :=
  match field with
  | Field f => Field <$> fd_child f
  | Argument a => Argument <$> arg_child a
  end.

Definition _is_list (field : FIELD_ARGUMENT_TYPE) : bool :=
  match field with Field f => fd_is_list f | Argument a => arg_is_list a end.

Definition _is_optional (field : FIELD_ARGUMENT_TYPE) : bool :=
  match field with Field f => fd_is_optional f | Argument a => arg_is_optional a end.

Definition _is_union (field : FIELD_ARGUMENT_TYPE) : bool :=
  match field with Field f => fd_is_union f | Argument a => arg_is_union a end.

Inductive TypeDefinition := mkTypeDefinition {
  td_name : string;
  td_is_input : bool;
  td_is_interface : bool;
  td_origin : PyRef;
  td_description : option string;
  td_fields : list FieldDefinition;
  td_interfaces : list TypeDefinition
}.

(** Induction on a type definition with the interfaces it implements. *)
Section TypeDefinition_nested_ind.
Variable P : TypeDefinition -> Prop.
Hypothesis step : forall td, Forall P (td_interfaces td) -> P td.

Fixpoint TypeDefinition_nested_ind (td : TypeDefinition) : P td :=
  match td with
  | mkTypeDefinition name is_input is_interface origin description fields interfaces =>
      step (mkTypeDefinition name is_input is_interface origin description
              fields interfaces)
        ((fix all (l : list TypeDefinition) : Forall P l :=
            match l with
            | [] => List.Forall_nil P
            | x :: l' => List.Forall_cons P x l' (TypeDefinition_nested_ind x) (all l')
            end) interfaces)
  end.
End TypeDefinition_nested_ind.

Record EnumValue := mkEnumValue {
  ev_name : string;
  ev_value : PyValue
}.

Record EnumDefinition := mkEnumDefinition {
  enum_name : option string;
  enum_values : list EnumValue;
  enum_description : option string
}.

Record StrawberryUnion := mkStrawberryUnion {
  union_name : string;
  union_description : option string;
  union_types : list PyRef
}.

Record DirectiveDefinition := mkDirectiveDefinition {
  directive_name : string;
  directive_locations : list string;
  directive_arguments : list ArgumentDefinition;
  directive_description : option string
}.

(** What the converter can observe of a Python object: the attributes it
    probes with [hasattr], and whether it is a [StrawberryUnion]. *)
Record PyObject := mkPyObject {
  _type_definition : option TypeDefinition;
  _enum_definition : option EnumDefinition;
  as_StrawberryUnion : option StrawberryUnion
}.

(** ** graphql-core's types (the converter's output) *)

Definition addr := nat.

(** The two closures the converter passes as [fields]: the lambda of
    [from_object_type] and [get_graphql_fields] of [from_interface], each
    closed over [self] and its type definition. *)
Inductive Thunk :=
| object_fields (type_definition : TypeDefinition)
| get_graphql_fields (interface : TypeDefinition).

(** The one dictionary a converter owns; [get_type_resolver] is handed the
    dictionary itself, not a copy of it. *)
Inductive DictRef := self_type_map.

(** [union.get_type_resolver(self.type_map)]: the union's factory applied to
    the converter's dictionary. *)
Inductive TypeResolver :=
| get_type_resolver (union : StrawberryUnion) (type_map : DictRef).

Inductive GraphQLType :=
| GraphQLObjectType (id : addr) (name : string) (fields : Thunk)
    (interfaces : list GraphQLType) (is_type_of_origin : PyRef)
    (description : option string)
| GraphQLInterfaceType (id : addr) (name : string) (fields : Thunk)
    (interfaces : list GraphQLType) (description : option string)
| GraphQLInputObjectType (id : addr) (name : string)
    (fields : dict (option string) GraphQLInputField)
    (description : option string)
| GraphQLEnumType (id : addr) (name : string) (values : dict string PyValue)
    (description : option string)
| GraphQLScalarType (id : addr) (name : string)
| GraphQLUnionType (id : addr) (name : string) (types : list GraphQLType)
    (description : option string) (resolve_type : TypeResolver)
| GraphQLList (of_type : GraphQLType)
| GraphQLNonNull (of_type : GraphQLType)
with GraphQLInputField :=
| mkGraphQLInputField (type_ : GraphQLType) (default_value : PyValue)
    (description : option string).

Record GraphQLArgument := mkGraphQLArgument {
  ga_type : GraphQLType;
  ga_default_value : PyValue;
  ga_description : option string
}.

(** A resolver: the callable [get_resolver] built for a field, or the
    [lambda event, *_, **__: event] of [from_field]. *)
Inductive Callable :=
| PyCallable (r : PyRef)
| lambda_event.

Record GraphQLField := mkGraphQLField {
  gf_type : GraphQLType;
  gf_args : dict string GraphQLArgument;
  gf_resolve : Callable;
  gf_subscribe : option Callable;
  gf_description : option string;
  gf_deprecation_reason : option string
}.

Record GraphQLDirective := mkGraphQLDirective {
  gd_name : string;
  gd_locations : list string;
  gd_args : dict string GraphQLArgument;
  gd_description : option string
}.

Definition isinstance_GraphQLObjectType (t : GraphQLType) : bool :=
  match t with GraphQLObjectType _ _ _ _ _ _ => true | _ => false end.

Definition isinstance_GraphQLInterfaceType (t : GraphQLType) : bool :=
  match t with GraphQLInterfaceType _ _ _ _ _ => true | _ => false end.

Definition isinstance_GraphQLEnumType (t : GraphQLType) : bool :=
  match t with GraphQLEnumType _ _ _ _ => true | _ => false end.

Definition isinstance_GraphQLUnionType (t : GraphQLType) : bool :=
  match t with GraphQLUnionType _ _ _ _ _ => true | _ => false end.

Definition isinstance_GraphQLInputObjectType (t : GraphQLType) : bool :=
  match t with GraphQLInputObjectType _ _ _ _ => true | _ => false end.

Definition isinstance_GraphQLScalarType (t : GraphQLType) : bool :=
  match t with GraphQLScalarType _ _ => true | _ => false end.

Definition isinstance_GraphQLNonNull (t : GraphQLType) : bool :=
  match t with GraphQLNonNull _ => true | _ => false end.

(** Identity of a named type; the wrappers [GraphQLList] and
    [GraphQLNonNull] are created anew at every use and carry none. *)
Definition id_of (t : GraphQLType) : option addr :=
  match t with
  | GraphQLObjectType id _ _ _ _ _ | GraphQLInterfaceType id _ _ _ _
  | GraphQLInputObjectType id _ _ _ | GraphQLEnumType id _ _ _
  | GraphQLScalarType id _ | GraphQLUnionType id _ _ _ _ => Some id
  | GraphQLList _ | GraphQLNonNull _ => None
  end.

(** The thunk stored in [fields] of an object or interface type. *)
Definition fields_of (t : GraphQLType) : option Thunk :=
  match t with
  | GraphQLObjectType _ _ fields _ _ _ | GraphQLInterfaceType _ _ fields _ _ => Some fields
  | _ => None
  end.

Definition interfaces_of (t : GraphQLType) : list GraphQLType :=
  match t with
  | GraphQLObjectType _ _ _ interfaces _ _ | GraphQLInterfaceType _ _ _ interfaces _ => interfaces
  | _ => []
  end.

(** ** The converter's state *)

Inductive Definition_ :=
| OfTypeDefinition (d : TypeDefinition)
| OfEnumDefinition (d : EnumDefinition)
| OfStrawberryUnion (d : StrawberryUnion)
| OfScalar (d : PyRef).

Record ConcreteType := mkConcreteType {
  definition : Definition_;
  implementation : GraphQLType
}.

Record State := mkState {
  type_map : gmap string ConcreteType;
  allocated : addr
}.

(** [GraphQLCoreConverter.__init__] *)
Definition __init__ (allocated : addr) : State :=
  {| type_map := ∅; allocated := allocated |}.

(** ** Exceptions and the method monad *)

Inductive TypeErrorMessage :=
| Unexpected_type (type_ : PyRef)
| Wrong_type_passed_to_get_object_type (object_type : PyRef)
| is_not_an_input_type (object_type : PyRef).

(** [UnallowedReturnTypeForUnion] and [WrongReturnTypeForUnion] are the two
    exceptions the module imports from [strawberry.exceptions]. *)
Inductive Exception :=
| TypeError (message : TypeErrorMessage)
| AssertionError
| RecursionError
| UnallowedReturnTypeForUnion
| WrongReturnTypeForUnion.

Inductive Outcome (A : Type) :=
| Returns (a : A) (st : State)
| Raises (e : Exception).
Arguments Returns {A} a st.
Arguments Raises {A} e.

Definition M (A : Type) := State -> Outcome A.

Definition ret {A} (a : A) : M A := fun st => Returns a st.

Definition raise {A} (e : Exception) : M A := fun _ => Raises e.

Definition bind {A B} (m : M A) (k : A -> M B) : M B :=
  fun st => match m st with
            | Returns a st' => k a st'
            | Raises e => Raises e
            end.

Notation "x <- m ;; k" := (bind m (fun x => k))
  (at level 100, m at next level, right associativity).
Notation "m ;;; k" := (bind m (fun _ => k))
  (at level 100, right associativity).

(** [assert b] *)
Definition assert (b : bool) : M unit :=
  if b then ret tt else raise AssertionError.

(** [assert x is not None], giving the value *)
Definition assert_is_not_None {A} (x : option A) : M A :=
  match x with Some a => ret a | None => raise AssertionError end.

(** [self.type_map.get(name)] *)
Definition type_map_get (name : string) : M (option ConcreteType) :=
  fun st => Returns (type_map st !! name) st.

(** [self.type_map[name] = concrete_type] *)
Definition type_map_set (name : string) (ct : ConcreteType) : M unit :=
  fun st => Returns tt {| type_map := <[name := ct]> (type_map st);
                          allocated := allocated st |}.

(** Creating a named graphql-core type: it gets a fresh identity. *)
Definition new (make : addr -> GraphQLType) : M GraphQLType :=
  fun st => Returns (make (allocated st))
                    {| type_map := type_map st; allocated := S (allocated st) |}.

(** [list(map(f, xs))], [[f(x) for x in xs]]: left to right. *)
Definition mapM {A B} (f : A -> M B) : list A -> M (list B) :=
  fix go xs :=
    match xs with
    | [] => ret []
    | x :: xs' => y <- f x ;; ys <- go xs' ;; ret (y :: ys)
    end.

(** [for x in xs: acc = f(acc, x)] *)
Definition foldM {A B} (f : B -> A -> M B) : list A -> B -> M B :=
  fix go xs acc :=
    match xs with
    | [] => ret acc
    | x :: xs' => acc' <- f acc x ;; go xs' acc'
    end.

(** ** A small schema

    [Schema.obj] is a Python heap with two object types that refer to each
    other ([A] has a field of type [B], [B] an optional field of type [A]),
    an interface, an input type, an enum, two unions, a subscription field,
    a field of no type and the built-in scalars. *)

Module Schema.

Open Scope string_scope.

(** References. *)
Definition NoneType : PyRef := 0.
Definition A : PyRef := 1.
Definition B : PyRef := 2.
Definition PointInput : PyRef := 3.
Definition Node : PyRef := 4.
Definition Color : PyRef := 5.
Definition AorB : PyRef := 6.
Definition AorColor : PyRef := 7.
Definition C : PyRef := 8.
Definition CInput : PyRef := 9.
Definition int : PyRef := 10.
Definition ID : PyRef := 11.

Definition field (name : string) (type_ : PyRef) (is_optional : bool) : FieldDefinition :=
  {| fd_name := Some name; fd_type := type_; fd_child := None;
     fd_is_list := false; fd_is_optional := is_optional; fd_is_union := false;
     fd_is_subscription := false; fd_arguments := [];
     fd_default_value := undefined; fd_description := None;
     fd_deprecation_reason := None |}.

Definition argument (name : string) (type_ : PyRef) (default_value : PyValue)
    : ArgumentDefinition :=
  {| arg_name := Some name; arg_type := type_; arg_child := None;
     arg_is_list := false; arg_is_optional := true; arg_is_union := false;
     arg_default_value := default_value; arg_description := None |}.

(** [tags: List[Optional[int]]]: a required list of optional [int]. *)
Definition tags : FieldDefinition :=
  {| fd_name := Some "tags"; fd_type := NoneType;
     fd_child := Some (field "tags" int true);
     fd_is_list := true; fd_is_optional := false; fd_is_union := false;
     fd_is_subscription := false; fd_arguments := [];
     fd_default_value := undefined; fd_description := None;
     fd_deprecation_reason := None |}.

(** A subscription field [ticks: int] with an argument [every: int = 1]. *)
Definition ticks : FieldDefinition :=
  {| fd_name := Some "ticks"; fd_type := int; fd_child := None;
     fd_is_list := false; fd_is_optional := false; fd_is_union := false;
     fd_is_subscription := true;
     fd_arguments := [argument "every" int (PyLit (LInt 1))];
     fd_default_value := undefined; fd_description := None;
     fd_deprecation_reason := None |}.

(** A field whose type is no type at all. *)
Definition broken : FieldDefinition := field "broken" NoneType false.

Definition Node_definition : TypeDefinition :=
  {| td_name := "Node"; td_is_input := false; td_is_interface := true;
     td_origin := Node; td_description := None;
     td_fields := [field "id" ID false]; td_interfaces := [] |}.

Definition A_definition : TypeDefinition :=
  {| td_name := "A"; td_is_input := false; td_is_interface := false;
     td_origin := A; td_description := None;
     td_fields := [field "b" B false]; td_interfaces := [Node_definition] |}.

Definition B_definition : TypeDefinition :=
  {| td_name := "B"; td_is_input := false; td_is_interface := false;
     td_origin := B; td_description := None;
     td_fields := [field "a" A true]; td_interfaces := [] |}.

Definition PointInput_definition : TypeDefinition :=
  {| td_name := "PointInput"; td_is_input := true; td_is_interface := false;
     td_origin := PointInput; td_description := None;
     td_fields := [field "x" int false; field "y" int false];
     td_interfaces := [] |}.

(** An object type and an input type with the field that cannot be
    converted. *)
Definition C_definition : TypeDefinition :=
  {| td_name := "C"; td_is_input := false; td_is_interface := false;
     td_origin := C; td_description := None;
     td_fields := [broken]; td_interfaces := [] |}.

Definition CInput_definition : TypeDefinition :=
  {| td_name := "CInput"; td_is_input := true; td_is_interface := false;
     td_origin := CInput; td_description := None;
     td_fields := [broken]; td_interfaces := [] |}.

Definition Color_definition : EnumDefinition :=
  {| enum_name := Some "Color";
     enum_values := [mkEnumValue "RED" (PyLit (LInt 1));
                     mkEnumValue "GREEN" (PyLit (LInt 2))];
     enum_description := None |}.

Definition AorB_union : StrawberryUnion :=
  {| union_name := "AorB"; union_description := None; union_types := [A; B] |}.

Definition AorColor_union : StrawberryUnion :=
  {| union_name := "AorColor"; union_description := None;
     union_types := [A; Color] |}.

Definition no_attributes : PyObject :=
  {| _type_definition := None; _enum_definition := None;
     as_StrawberryUnion := None |}.

Definition obj (r : PyRef) : PyObject :=
  match r with
  | 1 => mkPyObject (Some A_definition) None None
  | 2 => mkPyObject (Some B_definition) None None
  | 3 => mkPyObject (Some PointInput_definition) None None
  | 4 => mkPyObject (Some Node_definition) None None
  | 5 => mkPyObject None (Some Color_definition) None
  | 6 => mkPyObject None None (Some AorB_union)
  | 7 => mkPyObject None None (Some AorColor_union)
  | 8 => mkPyObject (Some C_definition) None None
  | 9 => mkPyObject (Some CInput_definition) None None
  | _ => no_attributes
  end.

Definition is_scalar (r : PyRef) : bool :=
  bool_decide (r = int) || bool_decide (r = ID).

(** Modelled from the spec: the scalar registry, for the built-in markers
    only.  A built-in marker maps to graphql-core's built-in scalar type, an
    object that exists before any converter does (identities 0 and 1 here);
    the cache is left as it is. *)
Definition get_scalar_type (scalar : PyRef) (st : State) : GraphQLType * State :=
  if bool_decide (scalar = ID) then (GraphQLScalarType 1 "ID", st)
  else (GraphQLScalarType 0 "Int", st).

(** The callable built for every field. *)
Definition get_resolver (_ : FieldDefinition) : PyRef := 100.

(** A fresh converter, after the built-in scalars. *)
Definition converter : State := __init__ 2.

End Schema.

(** ** A recursive input type

    [input Filter { not: Filter, equals: int }]: the first field of the
    input type refers to the input type itself. *)

Module FilterSchema.

Open Scope string_scope.

Definition Filter : PyRef := 1.
Definition int : PyRef := 10.

Definition Filter_definition : TypeDefinition :=
  {| td_name := "Filter"; td_is_input := true; td_is_interface := false;
     td_origin := Filter; td_description := None;
     td_fields := [Schema.field "not" Filter true; Schema.field "equals" int true];
     td_interfaces := [] |}.

Definition obj (r : PyRef) : PyObject :=
  match r with
  | 1 => mkPyObject (Some Filter_definition) None None
  | _ => Schema.no_attributes
  end.

End FilterSchema.

(** ** A schema with arguments, lists and defaults

    [type Author implements Node { id: ID!, books(first: Int = 10, after:
    ID): [Book!]! }] and [type Book implements Node { id: ID!, author:
    Author!, coauthors: [Author] }]: each type has a field of the other type
    beside a scalar field, one of them with arguments, two of them lists. *)

Module Library.

Open Scope string_scope.

Definition Author : PyRef := 1.
Definition Book : PyRef := 2.

(** [books(first: int = 10, after: Optional[ID] = UNSET) -> List[Book]] *)
Definition books : FieldDefinition :=
  {| fd_name := Some "books"; fd_type := Schema.NoneType;
     fd_child := Some (Schema.field "books" Book false);
     fd_is_list := true; fd_is_optional := false; fd_is_union := false;
     fd_is_subscription := false;
     fd_arguments := [Schema.argument "first" Schema.int (PyLit (LInt 10));
                      Schema.argument "after" Schema.ID UNSET];
     fd_default_value := undefined; fd_description := None;
     fd_deprecation_reason := None |}.

(** [coauthors: Optional[List[Optional[Author]]]] *)
Definition coauthors : FieldDefinition :=
  {| fd_name := Some "coauthors"; fd_type := Schema.NoneType;
     fd_child := Some (Schema.field "coauthors" Author true);
     fd_is_list := true; fd_is_optional := true; fd_is_union := false;
     fd_is_subscription := false; fd_arguments := [];
     fd_default_value := undefined; fd_description := None;
     fd_deprecation_reason := None |}.

Definition Author_definition : TypeDefinition :=
  {| td_name := "Author"; td_is_input := false; td_is_interface := false;
     td_origin := Author; td_description := None;
     td_fields := [Schema.field "id" Schema.ID false; books];
     td_interfaces := [Schema.Node_definition] |}.

Definition Book_definition : TypeDefinition :=
  {| td_name := "Book"; td_is_input := false; td_is_interface := false;
     td_origin := Book; td_description := None;
     td_fields := [Schema.field "id" Schema.ID false;
                   Schema.field "author" Author false; coauthors];
     td_interfaces := [Schema.Node_definition] |}.

Definition obj (r : PyRef) : PyObject :=
  match r with
  | 1 => mkPyObject (Some Author_definition) None None
  | 2 => mkPyObject (Some Book_definition) None None
  | _ => Schema.no_attributes
  end.

(** A field of an input type, [name: Optional[type_] = default_value]. *)
Definition input_field (name : string) (type_ : PyRef) (default_value : PyValue)
    : FieldDefinition :=
  {| fd_name := Some name; fd_type := type_; fd_child := None;
     fd_is_list := false; fd_is_optional := true; fd_is_union := false;
     fd_is_subscription := false; fd_arguments := [];
     fd_default_value := default_value; fd_description := None;
     fd_deprecation_reason := None |}.

End Library.

(** ** GraphQLCoreConverter *)

Section GraphQLCoreConverter.

(** The Python heap the definitions live in: what each reference holds. *)
Variable obj : PyRef -> PyObject.

(** [strawberry.scalars.is_scalar] *)
Variable is_scalar : PyRef -> bool.

(** [strawberry.schema.types.scalar.get_scalar_type(scalar, type_map)]: it
    is given the converter's dictionary and may add to it. *)
Variable get_scalar_type : PyRef -> State -> GraphQLType * State.

(** [strawberry.resolvers.get_resolver(field)]: the callable it builds. *)
Variable get_resolver : FieldDefinition -> PyRef.

Definition _is_scalar (type_ : PyRef) : bool := is_scalar type_.

Definition _is_object_type (type_ : PyRef) : bool :=
  bool_decide (is_Some (_type_definition (obj type_))).

Definition _is_enum (type_ : PyRef) : bool :=
  bool_decide (is_Some (_enum_definition (obj type_))).

Definition from_enum_value (enum_value : EnumValue) : PyValue :=
  ev_value enum_value.

Definition from_enum (enum : EnumDefinition) : M GraphQLType :=
  name <- assert_is_not_None (enum_name enum) ;;
  cached <- type_map_get name ;;
  match cached with
  | Some concrete_type =>
      let graphql_enum := implementation concrete_type in
      assert (isinstance_GraphQLEnumType graphql_enum) ;;;
      ret graphql_enum
  | None =>
      graphql_enum <- new (fun id =>
        GraphQLEnumType id name
          (dict_of_pairs (map (fun item => (ev_name item, from_enum_value item))
                              (enum_values enum)))
          (enum_description enum)) ;;
      type_map_set name {| definition := OfEnumDefinition enum;
                           implementation := graphql_enum |} ;;;
      ret graphql_enum
  end.

Fixpoint from_interface (interface : TypeDefinition) : M GraphQLType :=
  cached <- type_map_get (td_name interface) ;;
  match cached with
  | Some concrete_type =>
      let graphql_interface := implementation concrete_type in
      assert (isinstance_GraphQLInterfaceType graphql_interface) ;;;
      ret graphql_interface
  | None =>
      interfaces <- mapM from_interface (td_interfaces interface) ;;
      graphql_interface <- new (fun id =>
        GraphQLInterfaceType id (td_name interface) (get_graphql_fields interface)
          interfaces (td_description interface)) ;;
      type_map_set (td_name interface)
        {| definition := OfTypeDefinition interface;
           implementation := graphql_interface |} ;;;
      ret graphql_interface
  end.

Definition from_object_type (object_type : PyRef) : M GraphQLType :=
  match _type_definition (obj object_type) with
  | None => raise (TypeError (Wrong_type_passed_to_get_object_type object_type))
  | Some type_definition =>
      cached <- type_map_get (td_name type_definition) ;;
      match cached with
      | Some concrete_type =>
          let graphql_object_type := implementation concrete_type in
          assert (isinstance_GraphQLObjectType graphql_object_type) ;;;
          ret graphql_object_type
      | None =>
          interfaces <- mapM from_interface (td_interfaces type_definition) ;;
          graphql_object_type <- new (fun id =>
            GraphQLObjectType id (td_name type_definition)
              (object_fields type_definition) interfaces
              (td_origin type_definition) (td_description type_definition)) ;;
          type_map_set (td_name type_definition)
            {| definition := OfTypeDefinition type_definition;
               implementation := graphql_object_type |} ;;;
          ret graphql_object_type
      end
  end.

Definition from_resolver (field : FieldDefinition) : Callable :=
  PyCallable (get_resolver field).

Definition from_scalar (scalar : PyRef) : M GraphQLType :=
  fun st => let (t, st') := get_scalar_type scalar st in Returns t st'.

(** The methods that reach each other through the class graph.  [fuel] is
    the call depth left. *)
Fixpoint get_graphql_type_field (fuel : nat) (field : FIELD_ARGUMENT_TYPE)
    {struct fuel} : M GraphQLType :=
  match fuel with
  | O => raise RecursionError
  | S fuel =>
      graphql_type <-
        (if _is_list field then from_list fuel field
         else if _is_union field then
           union <- assert_is_not_None (as_StrawberryUnion (obj (fa_type field))) ;;
           from_union fuel union
         else get_graphql_type fuel (fa_type field)) ;;
      if negb (_is_optional field)
      then ret (GraphQLNonNull graphql_type)
      else ret graphql_type
  end

with get_graphql_type (fuel : nat) (type_ : PyRef) {struct fuel} : M GraphQLType :=
  match fuel with
  | O => raise RecursionError
  | S fuel =>
      match _type_definition (obj type_) with
      | Some type_definition =>
          if td_is_input type_definition then from_input_object_type fuel type_
          else if td_is_interface type_definition then from_interface type_definition
          else from_object_type type_
      | None =>
          match _enum_definition (obj type_) with
          | Some enum_definition => from_enum enum_definition
          | None =>
              if _is_scalar type_ then from_scalar type_
              else raise (TypeError (Unexpected_type type_))
          end
      end
  end

with from_list (fuel : nat) (list_ : FIELD_ARGUMENT_TYPE) {struct fuel} : M GraphQLType :=
  match fuel with
  | O => raise RecursionError
  | S fuel =>
      child <- assert_is_not_None (fa_child list_) ;;
      of_type <- get_graphql_type_field fuel child ;;
      ret (GraphQLList of_type)
  end

with from_union (fuel : nat) (union : StrawberryUnion) {struct fuel} : M GraphQLType :=
  match fuel with
  | O => raise RecursionError
  | S fuel =>
      cached <- type_map_get (union_name union) ;;
      match cached with
      | Some concrete_type =>
          let graphql_union := implementation concrete_type in
          assert (isinstance_GraphQLUnionType graphql_union) ;;;
          ret graphql_union
      | None =>
          graphql_types <- mapM (fun type_ =>
              graphql_type <- get_graphql_type fuel type_ ;;
              assert (isinstance_GraphQLObjectType graphql_type) ;;;
              ret graphql_type) (union_types union) ;;
          graphql_union <- new (fun id =>
            GraphQLUnionType id (union_name union) graphql_types
              (union_description union)
              (get_type_resolver union self_type_map)) ;;
          type_map_set (union_name union)
            {| definition := OfStrawberryUnion union;
               implementation := graphql_union |} ;;;
          ret graphql_union
      end
  end

with from_input_object_type (fuel : nat) (object_type : PyRef) {struct fuel}
    : M GraphQLType :=
  match fuel with
  | O => raise RecursionError
  | S fuel =>
      match _type_definition (obj object_type) with
      | None => raise (TypeError (Wrong_type_passed_to_get_object_type object_type))
      | Some type_definition =>
          if negb (td_is_input type_definition)
          then raise (TypeError (is_not_an_input_type object_type))
          else
            fields <- mapM (fun field =>
                input_field <- from_input_field fuel field ;;
                ret (fd_name field, input_field)) (td_fields type_definition) ;;
            new (fun id =>
              GraphQLInputObjectType id (td_name type_definition)
                (dict_of_pairs fields) (td_description type_definition))
      end
  end

with from_input_field (fuel : nat) (field : FieldDefinition) {struct fuel}
    : M GraphQLInputField :=
  match fuel with
  | O => raise RecursionError
  | S fuel =>
      let default_value :=
        if py_in (fd_default_value field) [undefined; UNSET] then Undefined
        else fd_default_value field in
      field_type <- get_graphql_type_field fuel (Field field) ;;
      ret (mkGraphQLInputField field_type default_value (fd_description field))
  end.

Definition from_argument (fuel : nat) (argument : ArgumentDefinition) : M GraphQLArgument :=
  let default_value :=
    if decide (arg_default_value argument = undefined) then Undefined
    else arg_default_value argument in
  argument_type <- get_graphql_type_field fuel (Argument argument) ;;
  ret {| ga_type := argument_type;
         ga_default_value := default_value;
         ga_description := arg_description argument |}.

(** The loop shared by [from_directive] and [from_field]:
    [for argument in arguments: assert argument.name is not None;
     graphql_arguments[argument.name] = self.from_argument(argument)] *)
Definition from_arguments (fuel : nat) (arguments : list ArgumentDefinition)
    : M (dict string GraphQLArgument) :=
  foldM (fun graphql_arguments argument =>
           name <- assert_is_not_None (arg_name argument) ;;
           graphql_argument <- from_argument fuel argument ;;
           ret (dict_set name graphql_argument graphql_arguments))
        arguments [].

Definition from_directive (fuel : nat) (directive : DirectiveDefinition)
    : M GraphQLDirective :=
  graphql_arguments <- from_arguments fuel (directive_arguments directive) ;;
  ret {| gd_name := directive_name directive;
         gd_locations := directive_locations directive;
         gd_args := graphql_arguments;
         gd_description := directive_description directive |}.

Definition from_field (fuel : nat) (field : FieldDefinition) : M GraphQLField :=
  field_type <- get_graphql_type_field fuel (Field field) ;;
  let resolver := from_resolver field in
  let subscribe := None in
  let '(resolver, subscribe) :=
    if fd_is_subscription field then (lambda_event, Some resolver)
    else (resolver, subscribe) in
  graphql_arguments <- from_arguments fuel (fd_arguments field) ;;
  ret {| gf_type := field_type;
         gf_args := graphql_arguments;
         gf_resolve := resolver;
         gf_subscribe := subscribe;
         gf_description := fd_description field;
         gf_deprecation_reason := fd_deprecation_reason field |}.

(** Calling the closure stored in [fields], as graphql-core does the first
    time the fields of the type are asked for.  It runs against the
    converter's state at that time. *)
Definition call_thunk (fuel : nat) (thunk : Thunk) : M (dict (option string) GraphQLField) :=
  match thunk with
  | object_fields type_definition =>
      pairs <- mapM (fun field =>
                 graphql_field <- from_field fuel field ;;
                 ret (fd_name field, graphql_field)) (td_fields type_definition) ;;
      ret (dict_of_pairs pairs)
  | get_graphql_fields interface =>
      foldM (fun graphql_fields field =>
               name <- assert_is_not_None (fd_name field) ;;
               graphql_field <- from_field fuel field ;;
               ret (dict_set (Some name) graphql_field graphql_fields))
            (td_fields interface) []
  end.

(** Calling a resolver with positional arguments; [call_resolver] is what
    the callables built by [get_resolver] do. *)
Definition call (call_resolver : PyRef -> list PyValue -> option PyValue)
    (f : Callable) (args : list PyValue) : option PyValue :=
  match f with
  | PyCallable r => call_resolver r args
  | lambda_event => head args
  end.

(** ** Vocabulary of the properties *)

(** The attributes of a [GraphQLInputField]. *)
Definition input_field_default_value (f : GraphQLInputField) : PyValue :=
  match f with mkGraphQLInputField _ default_value _ => default_value end.

Definition input_field_type (f : GraphQLInputField) : GraphQLType :=
  match f with mkGraphQLInputField type_ _ _ => type_ end.

(** The design document's three states of a default value. *)
Inductive DefaultValue :=
| NotProvided
| Null
| Value (v : Literal).

(** The state that a default value held by a definition stands for.
    strawberry has two sentinels for "no default": [undefined], which a
    definition holds when nothing was given, and [UNSET]; both stand for the
    design document's NotProvided.  [None] is an explicit null and anything
    else is the value.  graphql-core's [Undefined] is not held by a
    definition. *)
Definition default_state (v : PyValue) : option DefaultValue :=
  match v with
  | undefined | UNSET => Some NotProvided
  | PyNone => Some Null
  | PyLit l => Some (Value l)
  | Undefined => None
  end.

(** How graphql-core is to be given each state: its [Undefined] for an
    absent default, [None] for null, or the value. *)
Definition graphql_default_value (d : DefaultValue) : PyValue :=
  match d with
  | NotProvided => Undefined
  | Null => PyNone
  | Value v => PyLit v
  end.

(** The two branches of [get_graphql_type_field] for a reference that is not
    a list: the union it names, or the type it names. *)
Definition innermost_type (fuel : nat) (field : FIELD_ARGUMENT_TYPE) : M GraphQLType :=
  if _is_union field then
    union <- assert_is_not_None (as_StrawberryUnion (obj (fa_type field))) ;;
    from_union fuel union
  else get_graphql_type fuel (fa_type field).

(** [GraphQLNonNull] around a type unless the reference is optional. *)
Definition non_null_unless_optional (field : FIELD_ARGUMENT_TYPE) (t : GraphQLType)
    : GraphQLType :=
  if _is_optional field then t else GraphQLNonNull t.

(** The order of composition as the design document states it, for a
    reference [field] that is [depth] lists around the reference [inner],
    whose type resolved to [t]: the innermost type first, then
    [GraphQLList] where the reference is a list, then [GraphQLNonNull] around
    that unless the reference is optional. *)
Inductive composition (inner : FIELD_ARGUMENT_TYPE) (t : GraphQLType)
    : nat -> FIELD_ARGUMENT_TYPE -> GraphQLType -> Prop :=
| composition_inner :
    _is_list inner = false ->
    composition inner t 0 inner (non_null_unless_optional inner t)
| composition_list depth field child of_type :
    _is_list field = true ->
    fa_child field = Some child ->
    composition inner t depth child of_type ->
    composition inner t (S depth) field
      (non_null_unless_optional field (GraphQLList of_type)).

(** Every exception the method can raise, from any state, satisfies [P]. *)
Definition raises_only {A} (P : Exception -> Prop) (m : M A) : Prop :=
  forall st e, m st = Raises e -> P e.

(** A type the dispatcher knows how to convert: an object with a type
    definition, an enum, or a scalar. *)
Definition recognised (type_ : PyRef) : bool :=
  _is_object_type type_ || _is_enum type_ || _is_scalar type_.

(** What the dispatcher and the methods under it can raise: a failed
    assertion, the recursion limit, or [TypeError: Unexpected type] for a
    type the dispatcher does not recognise. *)
Definition dispatcher_may_raise (e : Exception) : Prop :=
  match e with
  | AssertionError | RecursionError => True
  | TypeError (Unexpected_type type_) => recognised type_ = false
  | _ => False
  end.

(** The two [TypeError]s a builder raises for an object of the wrong kind:
    the design document's WrongKindForBuilder. *)
Definition wrong_kind_error (e : Exception) : Prop :=
  match e with
  | TypeError (Wrong_type_passed_to_get_object_type _)
  | TypeError (is_not_an_input_type _) => True
  | _ => False
  end.

(** The body of the loop over [union.types]. *)
Definition union_member (fuel : nat) (type_ : PyRef) : M GraphQLType :=
  graphql_type <- get_graphql_type fuel type_ ;;
  assert (isinstance_GraphQLObjectType graphql_type) ;;;
  ret graphql_type.

(** A field whose type the dispatcher cannot convert. *)
Definition unconvertible (field : FieldDefinition) : Prop :=
  fd_is_list field = false /\ fd_is_union field = false /\
  recognised (fd_type field) = false.

(** The method takes no identity back: when it returns, at least as many
    objects have been created as before. *)
Definition later {A} (m : M A) : Prop :=
  forall st a st', m st = Returns a st' -> allocated st <= allocated st'.

(** The name of a definition and of every interface reachable from it. *)
Fixpoint all_names (td : TypeDefinition) : list string :=
  match td with
  | mkTypeDefinition name _ _ _ _ _ interfaces => name :: flat_map all_names interfaces
  end.

(** The names of the interfaces reachable from a definition. *)
Definition interface_names (td : TypeDefinition) : list string :=
  flat_map all_names (td_interfaces td).

(** No definition reachable from [td], [td] included, bears the name of an
    interface reachable from itself. *)
Fixpoint well_named (td : TypeDefinition) : bool :=
  match td with
  | mkTypeDefinition name _ _ _ _ _ interfaces =>
      bool_decide (name ∉ flat_map all_names interfaces) &&
      forallb well_named interfaces
  end.

(** From [st] to [st'] as many objects were created as entries were added
    to the cache. *)
Definition one_object_per_entry (st st' : State) : Prop :=
  allocated st' + size (type_map st) = allocated st + size (type_map st').

(** The named type under the wrappers. *)
Fixpoint named_type (t : GraphQLType) : GraphQLType :=
  match t with
  | GraphQLList of_type | GraphQLNonNull of_type => named_type of_type
  | _ => t
  end.

(** Every entry the cache has under one of [names] is an interface type. *)
Definition interfaces_at (names : list string) (st : State) : Prop :=
  forall n ct, n ∈ names -> type_map st !! n = Some ct ->
    isinstance_GraphQLInterfaceType (implementation ct) = true.

(** From [st] to [st'] the cache only gained interface types, under names
    of [names] that were free. *)
Definition interfaces_added (names : list string) (st st' : State) : Prop :=
  forall n,
    type_map st' !! n = type_map st !! n \/
    (n ∈ names /\ type_map st !! n = None /\
     exists ct, type_map st' !! n = Some ct /\
       isinstance_GraphQLInterfaceType (implementation ct) = true).

(** The reference is to the class [type_], as it is or under any number of
    lists: [type_], [Optional[type_]], [List[type_]],
    [List[Optional[type_]]] and so on. *)
Inductive names_class (type_ : PyRef) : FIELD_ARGUMENT_TYPE -> Prop :=
| names_class_plain reference :
    _is_list reference = false ->
    _is_union reference = false ->
    fa_type reference = type_ ->
    names_class type_ reference
| names_class_list reference child :
    _is_list reference = true ->
    fa_child reference = Some child ->
    names_class type_ child ->
    names_class type_ reference.

(** A field of type [type_], whatever its arguments and other attributes. *)
Definition references (type_ : PyRef) (field : FieldDefinition) : Prop :=
  names_class type_ (Field field).

(** A class that is registered as a scalar and has no definition of
    another kind. *)
Definition scalar_class (type_ : PyRef) : Prop :=
  _type_definition (obj type_) = None /\
  _enum_definition (obj type_) = None /\
  is_scalar type_ = true.

Definition scalar_reference (reference : FIELD_ARGUMENT_TYPE) : Prop :=
  exists scalar, scalar_class scalar /\ names_class scalar reference.

(** An argument with a name and of a scalar type. *)
Definition scalar_argument (argument : ArgumentDefinition) : Prop :=
  is_Some (arg_name argument) /\ scalar_reference (Argument argument).

(** A field of type [type_] or of a scalar type, whose arguments are of
    scalar types. *)
Definition field_over (type_ : PyRef) (field : FieldDefinition) : Prop :=
  (references type_ field \/ scalar_reference (Field field)) /\
  Forall scalar_argument (fd_arguments field).

(** The cache holds the object type [t] under the name of the definition. *)
Definition registered (type_definition : TypeDefinition) (t : GraphQLType)
    (st : State) : Prop :=
  exists concrete_type,
    type_map st !! td_name type_definition = Some concrete_type /\
    implementation concrete_type = t /\
    isinstance_GraphQLObjectType t = true.

(** The cache holds, under the name of the definition, the object type
    built from this definition. *)
Definition built (type_definition : TypeDefinition) (st : State) : Prop :=
  exists id interfaces,
    type_map st !! td_name type_definition =
    Some {| definition := OfTypeDefinition type_definition;
            implementation :=
              GraphQLObjectType id (td_name type_definition)
                (object_fields type_definition) interfaces
                (td_origin type_definition) (td_description type_definition) |}.

(** The object type of the definition is built, or can be: its name is free
    and the names of its interfaces hold nothing but interface types. *)
Definition ready (type_definition : TypeDefinition) (st : State) : Prop :=
  (type_map st !! td_name type_definition = None /\
   interfaces_at (interface_names type_definition) st) \/
  built type_definition st.

(** The scalar registry leaves the cache as it is under [names]. *)
Definition registry_apart (names : list string) : Prop :=
  forall scalar st n,
    n ∈ names ->
    type_map (get_scalar_type scalar st).2 !! n = type_map st !! n.

(** A definition the dispatcher sends to the object builder. *)
Definition is_object_definition (type_definition : TypeDefinition) : Prop :=
  td_is_input type_definition = false /\ td_is_interface type_definition = false.

(** A field that is a plain reference to the class [type_]: not a list, not a
    union. *)
Definition plain_reference (type_ : PyRef) (field : FieldDefinition) : Prop :=
  fd_is_list field = false /\ fd_is_union field = false /\ fd_type field = type_.

(** The method leaves every entry the cache has as it is. *)
Definition keeps_cache {A} (m : M A) : Prop :=
  forall st a st', m st = Returns a st' -> type_map st ⊆ type_map st'.

(** The value of the last pair with key [k]: what [{key: value for ...}]
    keeps for a key that occurs more than once. *)
Fixpoint last_value {K V} `{EqDecision K} (k : K) (kvs : list (K * V)) : option V :=
  match kvs with
  | [] => None
  | (k', v) :: rest =>
      match last_value k rest with
      | Some v' => Some v'
      | None => if decide (k = k') then Some v else None
      end
  end.

(** The field that a name stands for in the field map made from [fields]:
    the last one of that name, as a later key of [{field.name: ... for field
    in fields}] replaces an earlier one. *)
Definition last_named (fields : list FieldDefinition) (name : option string)
    : option FieldDefinition :=
  last_value name (map (fun field => (fd_name field, field)) fields).

(** In the field map [graphql_fields] made from [fields], every field of
    type [type_] has the instance [t] as its named type.  (The fields in the
    field map are those that are the last of their name; with names that are
    all different, these are all the fields.) *)
Definition resolved_to (fields : list FieldDefinition)
    (graphql_fields : dict (option string) GraphQLField)
    (type_ : PyRef) (t : GraphQLType) : Prop :=
  forall field,
    last_named fields (fd_name field) = Some field ->
    references type_ field ->
    exists graphql_field,
      dict_get (fd_name field) graphql_fields = Some graphql_field /\
      named_type (gf_type graphql_field) = t.

(** The outcome is not the recursion limit being hit. *)
Definition settled {A} (r : Outcome A) : Prop := r <> Raises RecursionError.

(** [m'] does what [m] does wherever [m] does not hit the recursion limit. *)
Definition extends {A} (m' m : M A) : Prop :=
  forall st, settled (m st) -> m' st = m st.

(** A class whose conversion goes through the cache: it has a type
    definition that is not an input type, or no type definition and an enum
    definition. *)
Definition cached_kind (o : PyObject) : Prop :=
  match _type_definition o with
  | Some type_definition => td_is_input type_definition = false
  | None => is_Some (_enum_definition o)
  end.

(** ** Reasoning about methods *)

Lemma bind_Returns {A B} (m : M A) (k : A -> M B) st b st' :
  bind m k st = Returns b st' <->
  exists a st1, m st = Returns a st1 /\ k a st1 = Returns b st'.
Proof.
  unfold bind. split.
  - destruct (m st) as [a st1|e]; [eauto | discriminate].
  - intros (a & st1 & -> & Hk). exact Hk.
Qed.

Lemma bind_Raises {A B} (m : M A) (k : A -> M B) st e :
  bind m k st = Raises e <->
  m st = Raises e \/ exists a st1, m st = Returns a st1 /\ k a st1 = Raises e.
Proof.
  unfold bind. split.
  - destruct (m st) as [a st1|e']; [eauto | intros [= ->]; auto].
  - intros [-> | (a & st1 & -> & Hk)]; [reflexivity | exact Hk].
Qed.

Lemma bind_of_Returns {A B} (m : M A) (k : A -> M B) st a st1 :
  m st = Returns a st1 -> bind m k st = k a st1.
Proof. unfold bind. intros ->. reflexivity. Qed.

Lemma bind_of_Raises {A B} (m : M A) (k : A -> M B) st e :
  m st = Raises e -> bind m k st = Raises e.
Proof. unfold bind. intros ->. reflexivity. Qed.

Lemma mapM_cons {A B} (f : A -> M B) x xs :
  mapM f (x :: xs) = (y <- f x ;; ys <- mapM f xs ;; ret (y :: ys)).
Proof. reflexivity. Qed.

Lemma foldM_cons {A B} (f : B -> A -> M B) x xs acc :
  foldM f (x :: xs) acc = (acc' <- f acc x ;; foldM f xs acc').
Proof. reflexivity. Qed.

Lemma assert_Returns b u st st' :
  assert b st = Returns u st' <-> b = true /\ st' = st.
Proof.
  destruct b, u; unfold assert, ret, raise; split.
  - intros [= <-]; auto.
  - intros [_ ->]; reflexivity.
  - discriminate.
  - intros [[=] _].
Qed.

Lemma assert_is_not_None_Returns {A} (x : option A) a st st' :
  assert_is_not_None x st = Returns a st' <-> x = Some a /\ st' = st.
Proof.
  destruct x; unfold assert_is_not_None, ret, raise; split.
  - intros [= -> <-]; auto.
  - intros [[= ->] ->]; reflexivity.
  - discriminate.
  - intros [[=] _].
Qed.

(** Unfolds the monad in a hypothesis [m st = Returns a st'] as far as the
    shape of [m] allows. *)
Ltac returns_prim H :=
  first
  [ apply assert_Returns in H; destruct H as [H ->]
  | apply assert_is_not_None_Returns in H; destruct H as [H ->]
  | progress unfold type_map_get in H; injection H as <- <-
  | progress unfold type_map_set in H; injection H as _ <-
  | progress unfold new in H; injection H as <- <-
  | progress unfold ret in H; injection H as <- <- ].

Ltac returns_inv H :=
  repeat match type of H with
  | bind _ _ _ = Returns _ _ =>
      let a := fresh "a" in let st1 := fresh "st" in
      let H1 := fresh "H" in
      apply bind_Returns in H; destruct H as (a & st1 & H1 & H);
      try returns_prim H1
  | ret _ _ = Returns _ _ => unfold ret in H; injection H as <- <-
  | raise _ _ = Returns _ _ => discriminate H
  end.

(** ** Resolvers of a field: [from_field] *)

Lemma from_field_Returns fuel field st graphql_field st' :
  from_field fuel field st = Returns graphql_field st' ->
  exists field_type st1 graphql_arguments,
    get_graphql_type_field fuel (Field field) st = Returns field_type st1 /\
    from_arguments fuel (fd_arguments field) st1 = Returns graphql_arguments st' /\
    graphql_field =
      {| gf_type := field_type;
         gf_args := graphql_arguments;
         gf_resolve := if fd_is_subscription field then lambda_event
                       else from_resolver field;
         gf_subscribe := if fd_is_subscription field then Some (from_resolver field)
                         else None;
         gf_description := fd_description field;
         gf_deprecation_reason := fd_deprecation_reason field |}.
Proof.
  unfold from_field. intros H.
  apply bind_Returns in H as (field_type & st1 & Htype & H).
  exists field_type, st1.
  destruct (fd_is_subscription field); returns_inv H; eauto.
Qed.

(** C7. For a field marked as a subscription, the materialized field's
    [subscribe] is the resolver built for the field, and its [resolve] is the
    lambda that hands back the event it is called with, whatever else it is
    passed. *)
Theorem subscription_field_split fuel field st graphql_field st' :
  fd_is_subscription field = true ->
  from_field fuel field st = Returns graphql_field st' ->
  gf_subscribe graphql_field = Some (from_resolver field) /\
  gf_resolve graphql_field = lambda_event /\
  forall call_resolver event rest,
    call call_resolver (gf_resolve graphql_field) (event :: rest) = Some event.
Proof.
  intros Hsub H.
  apply from_field_Returns in H as (field_type & st1 & args & _ & _ & ->).
  rewrite Hsub. simpl. auto.
Qed.

(** C10. For a field not marked as a subscription, the materialized field
    has no [subscribe] function and its [resolve] is the resolver built for
    the field. *)
Theorem plain_field_resolver fuel field st graphql_field st' :
  fd_is_subscription field = false ->
  from_field fuel field st = Returns graphql_field st' ->
  gf_subscribe graphql_field = None /\
  gf_resolve graphql_field = from_resolver field.
Proof.
  intros Hsub H.
  apply from_field_Returns in H as (field_type & st1 & args & _ & _ & ->).
  rewrite Hsub. simpl. auto.
Qed.

(** ** Default values: [from_argument] and [from_input_field] *)

Lemma from_argument_Returns fuel argument st graphql_argument st' :
  from_argument fuel argument st = Returns graphql_argument st' ->
  exists argument_type,
    get_graphql_type_field fuel (Argument argument) st = Returns argument_type st' /\
    graphql_argument =
      {| ga_type := argument_type;
         ga_default_value :=
           if decide (arg_default_value argument = undefined) then Undefined
           else arg_default_value argument;
         ga_description := arg_description argument |}.
Proof.
  unfold from_argument. intros H. returns_inv H. eauto.
Qed.

Lemma from_input_field_Returns fuel field st input_field st' :
  from_input_field fuel field st = Returns input_field st' ->
  exists fuel' field_type,
    fuel = S fuel' /\
    get_graphql_type_field fuel' (Field field) st = Returns field_type st' /\
    input_field =
      mkGraphQLInputField field_type
        (if py_in (fd_default_value field) [undefined; UNSET] then Undefined
         else fd_default_value field)
        (fd_description field).
Proof.
  destruct fuel as [|fuel']; simpl; [discriminate|].
  intros H. returns_inv H. eauto.
Qed.

(** The [UNSET] sentinel, the second of the two that stand for "no
    default".  An input field treats it as no default; an argument hands it
    on as it is. *)
Lemma UNSET_default_value fuel st :
  (forall field input_field st',
      fd_default_value field = UNSET ->
      from_input_field fuel field st = Returns input_field st' ->
      input_field_default_value input_field = Undefined) /\
  (forall argument graphql_argument st',
      arg_default_value argument = UNSET ->
      from_argument fuel argument st = Returns graphql_argument st' ->
      ga_default_value graphql_argument = UNSET).
Proof.
  split.
  - intros field input_field st' Hd H.
    apply from_input_field_Returns in H as (? & ? & _ & _ & ->).
    rewrite Hd. reflexivity.
  - intros argument graphql_argument st' Hd H.
    apply from_argument_Returns in H as (? & _ & ->).
    rewrite Hd. reflexivity.
Qed.

(** C6. The three states of a default value through conversion.  An input
    field converts each state as the design document asks, whichever sentinel
    stands for "no default": no default becomes graphql-core's [Undefined],
    an explicit null stays [None], a value stays that value, and the field is
    converted whenever its type is.  An argument does the same when it holds
    [undefined], [None] or a value.  An argument that holds the [UNSET]
    sentinel is converted too, but its "no default" is not turned into
    [Undefined]: graphql-core is handed [UNSET] as if it were a value.  The
    three results graphql-core is to be given are told apart, so where the
    translation is done no default is never turned into null. *)
Theorem default_value_states fuel st :
  (forall field d field_type st',
      default_state (fd_default_value field) = Some d ->
      get_graphql_type_field fuel (Field field) st = Returns field_type st' ->
      from_input_field (S fuel) field st =
      Returns (mkGraphQLInputField field_type (graphql_default_value d)
                 (fd_description field)) st') /\
  (forall argument d argument_type st',
      default_state (arg_default_value argument) = Some d ->
      arg_default_value argument <> UNSET ->
      get_graphql_type_field fuel (Argument argument) st = Returns argument_type st' ->
      from_argument fuel argument st =
      Returns {| ga_type := argument_type;
                 ga_default_value := graphql_default_value d;
                 ga_description := arg_description argument |} st') /\
  (forall argument argument_type st',
      arg_default_value argument = UNSET ->
      get_graphql_type_field fuel (Argument argument) st = Returns argument_type st' ->
      default_state (arg_default_value argument) = Some NotProvided /\
      from_argument fuel argument st =
      Returns {| ga_type := argument_type;
                 ga_default_value := UNSET;
                 ga_description := arg_description argument |} st' /\
      UNSET <> graphql_default_value NotProvided) /\
  (forall d d', graphql_default_value d = graphql_default_value d' -> d = d') /\
  graphql_default_value NotProvided <> graphql_default_value Null.
Proof.
  split; [|split; [|split; [|split]]].
  - intros field d field_type st' Hd Htype.
    change (from_input_field (S fuel) field st) with
      ((field_type <- get_graphql_type_field fuel (Field field) ;;
        ret (mkGraphQLInputField field_type
               (if py_in (fd_default_value field) [undefined; UNSET] then Undefined
                else fd_default_value field) (fd_description field))) st).
    rewrite (bind_of_Returns _ _ _ _ _ Htype). unfold ret. do 2 f_equal.
    destruct (fd_default_value field); simpl in Hd; try discriminate;
      injection Hd as <-; reflexivity.
  - intros argument d argument_type st' Hd Hunset Htype.
    unfold from_argument. rewrite (bind_of_Returns _ _ _ _ _ Htype).
    unfold ret. do 2 f_equal.
    destruct (arg_default_value argument); simpl in Hd; try discriminate;
      try congruence; injection Hd as <-; reflexivity.
  - intros argument argument_type st' Hunset Htype. rewrite Hunset.
    split; [reflexivity|]. split; [|discriminate].
    unfold from_argument. rewrite (bind_of_Returns _ _ _ _ _ Htype), Hunset.
    reflexivity.
  - intros d d' H. destruct d, d'; simpl in H; congruence.
  - discriminate.
Qed.

(** ** Modifiers: [get_graphql_type_field] and [from_list] *)

Lemma get_graphql_type_field_S fuel field st :
  get_graphql_type_field (S fuel) field st =
  (graphql_type <- (if _is_list field then from_list fuel field
                    else innermost_type fuel field) ;;
   ret (non_null_unless_optional field graphql_type)) st.
Proof.
  simpl. unfold innermost_type, non_null_unless_optional, bind.
  destruct (_is_list field), (_is_union field), (_is_optional field); reflexivity.
Qed.

Lemma from_list_S fuel list_ st :
  from_list (S fuel) list_ st =
  (child <- assert_is_not_None (fa_child list_) ;;
   of_type <- get_graphql_type_field fuel child ;;
   ret (GraphQLList of_type)) st.
Proof. reflexivity. Qed.

Lemma get_graphql_type_field_composes depth : forall inner t field r fuel st st',
  composition inner t depth field r ->
  innermost_type fuel inner st = Returns t st' ->
  get_graphql_type_field (S fuel + 2 * depth) field st = Returns r st'.
Proof.
  induction depth as [|depth IH]; intros inner t field r fuel st st' Hc Hinner;
    inversion Hc; subst.
  - rewrite Nat.add_0_r, get_graphql_type_field_S.
    unfold bind. rewrite H, Hinner. reflexivity.
  - replace (S fuel + 2 * S depth) with (S (S (S fuel + 2 * depth))) by lia.
    rewrite get_graphql_type_field_S. unfold bind at 1.
    rewrite H0, from_list_S. unfold bind, assert_is_not_None.
    rewrite H1. unfold ret at 1.
    rewrite (IH _ _ _ _ _ _ _ H2 Hinner). reflexivity.
Qed.

Lemma get_graphql_type_field_composed fuel : forall field st r st',
  get_graphql_type_field fuel field st = Returns r st' ->
  exists inner t depth fuel',
    composition inner t depth field r /\
    fuel = S fuel' + 2 * depth /\
    innermost_type fuel' inner st = Returns t st'.
Proof.
  induction fuel as [fuel IH] using lt_wf_ind. intros field st r st' H.
  destruct fuel as [|fuel]; [discriminate|].
  rewrite get_graphql_type_field_S in H.
  apply bind_Returns in H as (t & st1 & H & Hret).
  unfold ret in Hret. injection Hret as <- <-.
  destruct (_is_list field) eqn:Hlist.
  - destruct fuel as [|fuel]; [discriminate|]. rewrite from_list_S in H.
    returns_inv H. rename H0 into Hchild, H1 into Hrec.
    apply IH in Hrec as (inner & t & depth & fuel' & Hc & -> & Hinner); [|lia].
    exists inner, t, (S depth), fuel'. split; [|split; [lia|exact Hinner]].
    eapply composition_list; eauto.
  - exists field, t, 0, fuel. split; [|split; [lia|exact H]].
    constructor; exact Hlist.
Qed.

(** C2. Modifiers are composed in one fixed order.  Every type the
    dispatcher returns for a field or argument is the innermost named or
    union type, wrapped in [GraphQLList] once per list level and in
    [GraphQLNonNull] around each level whose reference is not optional; and
    the dispatcher returns that type whenever the innermost type resolves.
    For a list of [T] the four cases are: required list of optional [T],
    [NonNull(List(T))]; optional list of required [T], [List(NonNull(T))];
    required list of required [T], [NonNull(List(NonNull(T)))]; optional
    list of optional [T], [List(T)]. *)
Theorem modifier_composition_order :
  (forall fuel field st r st',
      get_graphql_type_field fuel field st = Returns r st' ->
      exists inner t depth fuel',
        composition inner t depth field r /\
        fuel = S fuel' + 2 * depth /\
        innermost_type fuel' inner st = Returns t st') /\
  (forall depth inner t field r fuel st st',
      composition inner t depth field r ->
      innermost_type fuel inner st = Returns t st' ->
      get_graphql_type_field (S fuel + 2 * depth) field st = Returns r st') /\
  (forall fuel field child st T st',
      _is_list field = true ->
      fa_child field = Some child ->
      _is_list child = false ->
      innermost_type fuel child st = Returns T st' ->
      get_graphql_type_field (3 + fuel) field st =
      Returns (match _is_optional field, _is_optional child with
               | false, true => GraphQLNonNull (GraphQLList T)
               | true, false => GraphQLList (GraphQLNonNull T)
               | false, false => GraphQLNonNull (GraphQLList (GraphQLNonNull T))
               | true, true => GraphQLList T
               end) st').
Proof.
  split; [|split].
  - intros fuel. apply get_graphql_type_field_composed.
  - intros depth. apply get_graphql_type_field_composes.
  - intros fuel field child st T st' Hlist Hchild Hinner HT.
    replace (3 + fuel) with (S fuel + 2 * 1) by lia.
    erewrite get_graphql_type_field_composes; [|eapply composition_list;
      [exact Hlist | exact Hchild | apply composition_inner; exact Hinner]
      | exact HT].
    unfold non_null_unless_optional.
    destruct (_is_optional field), (_is_optional child); reflexivity.
Qed.

(** ** Which exceptions a method can raise *)

Section raises_only.
Variable P : Exception -> Prop.

Lemma raises_only_ret {A} (a : A) : raises_only P (ret a).
Proof. intros st e. discriminate. Qed.

Lemma raises_only_raise {A} e : P e -> raises_only P (@raise A e).
Proof. intros He st e' [= <-]. exact He. Qed.

Lemma raises_only_bind {A B} (m : M A) (k : A -> M B) :
  raises_only P m -> (forall a, raises_only P (k a)) -> raises_only P (bind m k).
Proof.
  intros Hm Hk st e H. apply bind_Raises in H as [H | (a & st1 & _ & H)].
  - exact (Hm _ _ H).
  - exact (Hk _ _ _ H).
Qed.

Lemma raises_only_assert b : P AssertionError -> raises_only P (assert b).
Proof.
  intros HP. destruct b; [apply raises_only_ret | apply raises_only_raise, HP].
Qed.

Lemma raises_only_assert_is_not_None {A} (x : option A) :
  P AssertionError -> raises_only P (assert_is_not_None x).
Proof.
  intros HP. destruct x; [apply raises_only_ret | apply raises_only_raise, HP].
Qed.

Lemma raises_only_type_map_get name : raises_only P (type_map_get name).
Proof. intros st e. discriminate. Qed.

Lemma raises_only_type_map_set name ct : raises_only P (type_map_set name ct).
Proof. intros st e. discriminate. Qed.

Lemma raises_only_new make : raises_only P (new make).
Proof. intros st e. discriminate. Qed.

Lemma raises_only_mapM {A B} (f : A -> M B) xs :
  Forall (fun x => raises_only P (f x)) xs -> raises_only P (mapM f xs).
Proof.
  induction 1 as [|x xs Hx _ IH]; simpl.
  - apply raises_only_ret.
  - apply raises_only_bind; [exact Hx|]. intros y.
    apply raises_only_bind; [exact IH|]. intros ys. apply raises_only_ret.
Qed.

Lemma raises_only_foldM {A B} (f : B -> A -> M B) xs :
  Forall (fun x => forall acc, raises_only P (f acc x)) xs ->
  forall acc, raises_only P (foldM f xs acc).
Proof.
  induction 1 as [|x xs Hx _ IH]; intros acc; simpl.
  - apply raises_only_ret.
  - apply raises_only_bind; [apply Hx | exact IH].
Qed.
End raises_only.

Create HintDb raises.
#[local] Hint Resolve raises_only_ret raises_only_raise raises_only_assert
  raises_only_assert_is_not_None raises_only_type_map_get
  raises_only_type_map_set raises_only_new : raises.

(** Breaks a goal [raises_only P m] along the binds of [m]. *)
Ltac raises_only_step :=
  lazymatch goal with
  | |- raises_only _ (bind _ _) => apply raises_only_bind; [|intros ?]
  | |- raises_only _ (mapM _ _) => apply raises_only_mapM
  | |- raises_only _ (foldM _ _ _) => apply raises_only_foldM
  | |- raises_only _ (match ?x with _ => _ end) => destruct x eqn:?
  | |- raises_only _ _ => solve [auto with raises]
  end.

Lemma recognised_false type_ :
  recognised type_ = false <->
  _type_definition (obj type_) = None /\
  _enum_definition (obj type_) = None /\
  is_scalar type_ = false.
Proof.
  unfold recognised, _is_object_type, _is_enum, _is_scalar.
  destruct (_type_definition (obj type_)), (_enum_definition (obj type_)),
    (is_scalar type_); simpl; split; intros H; try discriminate;
    try (destruct H as (? & ? & ?); discriminate); auto.
Qed.

Lemma from_enum_raises P enum :
  P AssertionError -> raises_only P (from_enum enum).
Proof.
  intros HP. unfold from_enum. repeat raises_only_step.
Qed.

Lemma from_interface_raises P interface :
  P AssertionError -> raises_only P (from_interface interface).
Proof.
  intros HP. induction interface as [td IH] using TypeDefinition_nested_ind.
  destruct td; simpl in *. repeat raises_only_step. exact IH.
Qed.

Lemma from_object_type_raises P object_type type_definition :
  _type_definition (obj object_type) = Some type_definition ->
  P AssertionError -> raises_only P (from_object_type object_type).
Proof.
  intros Htd HP. unfold from_object_type. rewrite Htd.
  repeat raises_only_step.
  apply Forall_forall. intros i _. apply from_interface_raises, HP.
Qed.

Lemma from_scalar_raises P scalar : raises_only P (from_scalar scalar).
Proof.
  intros st e. unfold from_scalar. destruct (get_scalar_type scalar st).
  discriminate.
Qed.

Lemma dispatcher_raises fuel :
  (forall field, raises_only dispatcher_may_raise (get_graphql_type_field fuel field)) /\
  (forall type_, raises_only dispatcher_may_raise (get_graphql_type fuel type_)) /\
  (forall list_, raises_only dispatcher_may_raise (from_list fuel list_)) /\
  (forall union, raises_only dispatcher_may_raise (from_union fuel union)) /\
  (forall object_type type_definition,
      _type_definition (obj object_type) = Some type_definition ->
      td_is_input type_definition = true ->
      raises_only dispatcher_may_raise (from_input_object_type fuel object_type)) /\
  (forall field, raises_only dispatcher_may_raise (from_input_field fuel field)).
Proof.
  assert (HA : dispatcher_may_raise AssertionError) by exact I.
  assert (HR : dispatcher_may_raise RecursionError) by exact I.
  induction fuel as [|fuel (IHfield & IHtype & IHlist & IHunion & IHinput & IHif)].
  { repeat split; intros; simpl; auto with raises. }
  repeat split.
  - intros field. simpl. repeat raises_only_step; auto.
  - intros type_. simpl.
    destruct (_type_definition (obj type_)) as [td|] eqn:Htd.
    + destruct (td_is_input td) eqn:Hin; [eauto|].
      destruct (td_is_interface td).
      * apply from_interface_raises, HA.
      * eapply from_object_type_raises; eauto.
    + destruct (_enum_definition (obj type_)) eqn:Hed;
        [apply from_enum_raises, HA|].
      destruct (_is_scalar type_) eqn:Hsc; [apply from_scalar_raises|].
      apply raises_only_raise. simpl. apply recognised_false. auto.
  - intros list_. simpl. repeat raises_only_step; auto.
  - intros union. simpl. repeat raises_only_step; auto.
    apply Forall_forall. intros type_ _. repeat raises_only_step; auto.
  - intros object_type td Htd Hin. simpl. rewrite Htd, Hin. simpl.
    repeat raises_only_step.
    apply Forall_forall. intros field _. repeat raises_only_step; auto.
  - intros field. simpl. repeat raises_only_step; auto.
Qed.

(** C8. A reference that is not a list, not a union and whose type is not
    recognised (no type definition, no enum definition, not a scalar) makes
    the dispatcher fail with [TypeError: Unexpected type], the design
    document's UnrecognizedTypeKind; and whenever the dispatcher fails with
    that error, the type it names is one that is not recognised, so the
    branch is not reached for a type of a known kind. *)
Theorem unexpected_type_error :
  (forall fuel field st,
      _is_list field = false ->
      _is_union field = false ->
      recognised (fa_type field) = false ->
      get_graphql_type_field (S (S fuel)) field st =
      Raises (TypeError (Unexpected_type (fa_type field)))) /\
  (forall fuel type_ st,
      recognised type_ = false ->
      get_graphql_type (S fuel) type_ st = Raises (TypeError (Unexpected_type type_))) /\
  (forall fuel field st type_,
      get_graphql_type_field fuel field st = Raises (TypeError (Unexpected_type type_)) ->
      recognised type_ = false) /\
  (forall fuel type_ st unexpected,
      get_graphql_type fuel type_ st = Raises (TypeError (Unexpected_type unexpected)) ->
      recognised unexpected = false) /\
  (forall fuel type_ st,
      recognised type_ = true ->
      get_graphql_type fuel type_ st <> Raises (TypeError (Unexpected_type type_))).
Proof.
  assert (Htype : forall fuel type_ st,
             recognised type_ = false ->
             get_graphql_type (S fuel) type_ st =
             Raises (TypeError (Unexpected_type type_))).
  { intros fuel type_ st H. apply recognised_false in H as (Htd & Hed & Hsc).
    simpl. unfold _is_scalar. rewrite Htd, Hed, Hsc. reflexivity. }
  repeat split.
  - intros fuel field st Hlist Hunion H.
    rewrite get_graphql_type_field_S. unfold bind, innermost_type.
    rewrite Hlist, Hunion, Htype; auto.
  - exact Htype.
  - intros fuel field st type_ H.
    exact (proj1 (dispatcher_raises fuel) _ _ _ H).
  - intros fuel type_ st unexpected H.
    exact (proj1 (proj2 (dispatcher_raises fuel)) _ _ _ H).
  - intros fuel type_ st Hrec H.
    apply (proj1 (proj2 (dispatcher_raises fuel))) in H. simpl in H. congruence.
Qed.

(** ** Kind checks of the builders *)

Lemma dispatcher_not_wrong_kind e : dispatcher_may_raise e -> ~ wrong_kind_error e.
Proof. destruct e as [[]| | | |]; simpl; tauto. Qed.

(** C9, as the code has it.  The input builder raises the error for an
    object without a type definition and for a definition that is not an
    input type.  The object builder raises it only for an object without a
    type definition: it builds an object type from a definition of any kind.
    The interface builder checks nothing.  No builder raises the error for a
    definition of its own kind. *)
Theorem wrong_kind_checks :
  (forall fuel object_type st,
      _type_definition (obj object_type) = None ->
      from_input_object_type (S fuel) object_type st =
      Raises (TypeError (Wrong_type_passed_to_get_object_type object_type))) /\
  (forall fuel object_type type_definition st,
      _type_definition (obj object_type) = Some type_definition ->
      td_is_input type_definition = false ->
      from_input_object_type (S fuel) object_type st =
      Raises (TypeError (is_not_an_input_type object_type))) /\
  (forall fuel object_type type_definition st e,
      _type_definition (obj object_type) = Some type_definition ->
      td_is_input type_definition = true ->
      from_input_object_type fuel object_type st = Raises e ->
      ~ wrong_kind_error e) /\
  (forall object_type st,
      _type_definition (obj object_type) = None ->
      from_object_type object_type st =
      Raises (TypeError (Wrong_type_passed_to_get_object_type object_type))) /\
  (forall object_type type_definition st e,
      _type_definition (obj object_type) = Some type_definition ->
      from_object_type object_type st = Raises e ->
      e = AssertionError) /\
  (forall interface st e,
      from_interface interface st = Raises e -> e = AssertionError).
Proof.
  repeat split.
  - intros fuel object_type st Htd. simpl. rewrite Htd. reflexivity.
  - intros fuel object_type td st Htd Hin. simpl. rewrite Htd, Hin. reflexivity.
  - intros fuel object_type td st e Htd Hin H.
    apply dispatcher_not_wrong_kind.
    exact (proj1 (proj2 (proj2 (proj2 (proj2 (dispatcher_raises fuel)))))
             _ _ Htd Hin _ _ H).
  - intros object_type st Htd. unfold from_object_type. rewrite Htd. reflexivity.
  - intros object_type td st e Htd H.
    exact (from_object_type_raises (fun e => e = AssertionError) _ _ Htd eq_refl _ _ H).
  - intros interface st e H.
    exact (from_interface_raises (fun e => e = AssertionError) _ eq_refl _ _ H).
Qed.

(** ** Unions: [from_union] *)

Lemma from_union_S fuel union st :
  from_union (S fuel) union st =
  (cached <- type_map_get (union_name union) ;;
   match cached with
   | Some concrete_type =>
       assert (isinstance_GraphQLUnionType (implementation concrete_type)) ;;;
       ret (implementation concrete_type)
   | None =>
       graphql_types <- mapM (union_member fuel) (union_types union) ;;
       graphql_union <- new (fun id =>
         GraphQLUnionType id (union_name union) graphql_types
           (union_description union) (get_type_resolver union self_type_map)) ;;
       type_map_set (union_name union)
         {| definition := OfStrawberryUnion union;
            implementation := graphql_union |} ;;;
       ret graphql_union
   end) st.
Proof. reflexivity. Qed.

Lemma union_member_object fuel type_ st t st' :
  get_graphql_type fuel type_ st = Returns t st' ->
  isinstance_GraphQLObjectType t = true ->
  union_member fuel type_ st = Returns t st'.
Proof.
  intros H Hobj. unfold union_member.
  rewrite (bind_of_Returns _ _ _ _ _ H). unfold bind, assert. rewrite Hobj.
  reflexivity.
Qed.

Lemma union_members_all_objects fuel : forall types st graphql_types st',
  mapM (get_graphql_type fuel) types st = Returns graphql_types st' ->
  Forall (fun t => isinstance_GraphQLObjectType t = true) graphql_types ->
  mapM (union_member fuel) types st = Returns graphql_types st'.
Proof.
  induction types as [|type_ types IH]; intros st graphql_types st' H Hall.
  - exact H.
  - rewrite mapM_cons in H |- *. returns_inv H.
    apply Forall_cons in Hall as [Hobj Hall].
    rewrite (bind_of_Returns _ _ _ _ _ (union_member_object _ _ _ _ _ H0 Hobj)).
    rewrite (bind_of_Returns _ _ _ _ _ (IH _ _ _ H1 Hall)). reflexivity.
Qed.

Lemma union_member_not_object fuel : forall before type_ after st graphql_types st1 t st2,
  mapM (get_graphql_type fuel) before st = Returns graphql_types st1 ->
  Forall (fun t => isinstance_GraphQLObjectType t = true) graphql_types ->
  get_graphql_type fuel type_ st1 = Returns t st2 ->
  isinstance_GraphQLObjectType t = false ->
  mapM (union_member fuel) (before ++ type_ :: after) st = Raises AssertionError.
Proof.
  induction before as [|b before IH];
    intros type_ after st graphql_types st1 t st2 H Hall Ht Hnot.
  - simpl in H. unfold ret in H. injection H as <- <-.
    simpl app. rewrite mapM_cons. apply bind_of_Raises.
    unfold union_member. rewrite (bind_of_Returns _ _ _ _ _ Ht).
    unfold bind, assert. rewrite Hnot. reflexivity.
  - rewrite mapM_cons in H. returns_inv H.
    apply Forall_cons in Hall as [Hobj Hall].
    rewrite <- app_comm_cons, mapM_cons.
    rewrite (bind_of_Returns _ _ _ _ _ (union_member_object _ _ _ _ _ H0 Hobj)).
    apply bind_of_Raises. exact (IH _ _ _ _ _ _ _ H1 Hall Ht Hnot).
Qed.

(** C5, as the code has it.  For a union that is not in the cache the
    builder resolves the members in order through [get_graphql_type].  When
    all of them are object types the union is created with these types and
    with the resolver [union.get_type_resolver(self.type_map)], and is put in
    the cache.  At the first member that resolves to another kind of type the
    build fails on the [isinstance] assertion, with [AssertionError]; the
    builder never raises [UnallowedReturnTypeForUnion]. *)
Theorem union_members_checked :
  (forall fuel union st graphql_types st1,
      type_map st !! union_name union = None ->
      mapM (get_graphql_type fuel) (union_types union) st = Returns graphql_types st1 ->
      Forall (fun t => isinstance_GraphQLObjectType t = true) graphql_types ->
      let graphql_union :=
        GraphQLUnionType (allocated st1) (union_name union) graphql_types
          (union_description union) (get_type_resolver union self_type_map) in
      from_union (S fuel) union st =
      Returns graphql_union
        {| type_map :=
             <[union_name union :=
                 {| definition := OfStrawberryUnion union;
                    implementation := graphql_union |}]> (type_map st1);
           allocated := S (allocated st1) |}) /\
  (forall fuel union before type_ after st graphql_types st1 t st2,
      type_map st !! union_name union = None ->
      union_types union = before ++ type_ :: after ->
      mapM (get_graphql_type fuel) before st = Returns graphql_types st1 ->
      Forall (fun t => isinstance_GraphQLObjectType t = true) graphql_types ->
      get_graphql_type fuel type_ st1 = Returns t st2 ->
      isinstance_GraphQLObjectType t = false ->
      from_union (S fuel) union st = Raises AssertionError) /\
  (forall fuel union st,
      from_union fuel union st <> Raises UnallowedReturnTypeForUnion).
Proof.
  repeat split.
  - intros fuel union st graphql_types st1 Hmiss Hmembers Hall.
    rewrite from_union_S. unfold bind at 1. unfold type_map_get. rewrite Hmiss.
    rewrite (bind_of_Returns _ _ _ _ _
               (union_members_all_objects _ _ _ _ _ Hmembers Hall)).
    reflexivity.
  - intros fuel union before type_ after st graphql_types st1 t st2
      Hmiss Htypes Hbefore Hall Ht Hnot.
    rewrite from_union_S. unfold bind at 1. unfold type_map_get. rewrite Hmiss.
    apply bind_of_Raises. rewrite Htypes.
    exact (union_member_not_object _ _ _ _ _ _ _ _ _ Hbefore Hall Ht Hnot).
  - intros fuel union st H.
    exact (proj1 (proj2 (proj2 (proj2 (dispatcher_raises fuel)))) _ _ _ H).
Qed.

(** ** Object, interface and input types: what is built when *)

Lemma from_interface_eq interface :
  from_interface interface =
  (cached <- type_map_get (td_name interface) ;;
   match cached with
   | Some concrete_type =>
       assert (isinstance_GraphQLInterfaceType (implementation concrete_type)) ;;;
       ret (implementation concrete_type)
   | None =>
       interfaces <- mapM from_interface (td_interfaces interface) ;;
       graphql_interface <- new (fun id =>
         GraphQLInterfaceType id (td_name interface) (get_graphql_fields interface)
           interfaces (td_description interface)) ;;
       type_map_set (td_name interface)
         {| definition := OfTypeDefinition interface;
            implementation := graphql_interface |} ;;;
       ret graphql_interface
   end).
Proof. destruct interface; reflexivity. Qed.

Lemma from_interface_hit interface st concrete_type :
  type_map st !! td_name interface = Some concrete_type ->
  isinstance_GraphQLInterfaceType (implementation concrete_type) = true ->
  from_interface interface st = Returns (implementation concrete_type) st.
Proof.
  intros Hhit Hinst. rewrite from_interface_eq.
  unfold bind at 1. unfold type_map_get. rewrite Hhit.
  unfold bind, assert. rewrite Hinst. reflexivity.
Qed.

Lemma from_interface_miss interface st interfaces st1 :
  type_map st !! td_name interface = None ->
  mapM from_interface (td_interfaces interface) st = Returns interfaces st1 ->
  let graphql_interface :=
    GraphQLInterfaceType (allocated st1) (td_name interface)
      (get_graphql_fields interface) interfaces (td_description interface) in
  from_interface interface st =
  Returns graphql_interface
    {| type_map :=
         <[td_name interface :=
             {| definition := OfTypeDefinition interface;
                implementation := graphql_interface |}]> (type_map st1);
       allocated := S (allocated st1) |}.
Proof.
  intros Hmiss Hifs. rewrite from_interface_eq.
  unfold bind at 1. unfold type_map_get. rewrite Hmiss.
  rewrite (bind_of_Returns _ _ _ _ _ Hifs). reflexivity.
Qed.

Lemma from_object_type_hit object_type type_definition st concrete_type :
  _type_definition (obj object_type) = Some type_definition ->
  type_map st !! td_name type_definition = Some concrete_type ->
  isinstance_GraphQLObjectType (implementation concrete_type) = true ->
  from_object_type object_type st = Returns (implementation concrete_type) st.
Proof.
  intros Htd Hhit Hinst. unfold from_object_type. rewrite Htd.
  unfold bind at 1. unfold type_map_get. rewrite Hhit.
  unfold bind, assert. rewrite Hinst. reflexivity.
Qed.

Lemma from_object_type_miss object_type type_definition st interfaces st1 :
  _type_definition (obj object_type) = Some type_definition ->
  type_map st !! td_name type_definition = None ->
  mapM from_interface (td_interfaces type_definition) st = Returns interfaces st1 ->
  let graphql_object_type :=
    GraphQLObjectType (allocated st1) (td_name type_definition)
      (object_fields type_definition) interfaces (td_origin type_definition)
      (td_description type_definition) in
  from_object_type object_type st =
  Returns graphql_object_type
    {| type_map :=
         <[td_name type_definition :=
             {| definition := OfTypeDefinition type_definition;
                implementation := graphql_object_type |}]> (type_map st1);
       allocated := S (allocated st1) |}.
Proof.
  intros Htd Hmiss Hifs. unfold from_object_type. rewrite Htd.
  unfold bind at 1. unfold type_map_get. rewrite Hmiss.
  rewrite (bind_of_Returns _ _ _ _ _ Hifs). reflexivity.
Qed.

Lemma from_input_object_type_S fuel object_type type_definition st :
  _type_definition (obj object_type) = Some type_definition ->
  td_is_input type_definition = true ->
  from_input_object_type (S fuel) object_type st =
  (fields <- mapM (fun field =>
                     input_field <- from_input_field fuel field ;;
                     ret (fd_name field, input_field))
                  (td_fields type_definition) ;;
   new (fun id =>
     GraphQLInputObjectType id (td_name type_definition)
       (dict_of_pairs fields) (td_description type_definition))) st.
Proof. intros Htd Hin. simpl. rewrite Htd, Hin. reflexivity. Qed.

Lemma unconvertible_field fuel field st :
  unconvertible field ->
  get_graphql_type_field (S (S fuel)) (Field field) st =
  Raises (TypeError (Unexpected_type (fd_type field))).
Proof.
  intros (Hlist & Hunion & Hrec).
  rewrite get_graphql_type_field_S. apply bind_of_Raises.
  unfold innermost_type, _is_list, _is_union, fa_type. rewrite Hlist, Hunion.
  apply recognised_false in Hrec as (Htd & Hed & Hsc).
  simpl. unfold _is_scalar. rewrite Htd, Hed, Hsc. reflexivity.
Qed.

(** C3, as the code has it.  Building an object or interface type that is
    not in the cache runs the interface builder on the interfaces it
    implements and nothing else: the result holds these interfaces, already
    built, and its field definitions inside a closure that has not been
    called; the fields do not influence the outcome.  They are materialized
    when the closure is called, so a field that cannot be converted makes
    that call fail and not the construction.  The input builder
    materializes the fields while it builds the type, and fails with the
    field. *)
Theorem field_population_deferred :
  (forall object_type type_definition st interfaces st1,
      _type_definition (obj object_type) = Some type_definition ->
      type_map st !! td_name type_definition = None ->
      mapM from_interface (td_interfaces type_definition) st = Returns interfaces st1 ->
      let graphql_object_type :=
        GraphQLObjectType (allocated st1) (td_name type_definition)
          (object_fields type_definition) interfaces (td_origin type_definition)
          (td_description type_definition) in
      from_object_type object_type st =
      Returns graphql_object_type
        {| type_map :=
             <[td_name type_definition :=
                 {| definition := OfTypeDefinition type_definition;
                    implementation := graphql_object_type |}]> (type_map st1);
           allocated := S (allocated st1) |}) /\
  (forall interface st interfaces st1,
      type_map st !! td_name interface = None ->
      mapM from_interface (td_interfaces interface) st = Returns interfaces st1 ->
      let graphql_interface :=
        GraphQLInterfaceType (allocated st1) (td_name interface)
          (get_graphql_fields interface) interfaces (td_description interface) in
      from_interface interface st =
      Returns graphql_interface
        {| type_map :=
             <[td_name interface :=
                 {| definition := OfTypeDefinition interface;
                    implementation := graphql_interface |}]> (type_map st1);
           allocated := S (allocated st1) |}) /\
  (forall fuel type_definition field rest st,
      td_fields type_definition = field :: rest ->
      unconvertible field ->
      call_thunk (S (S fuel)) (object_fields type_definition) st =
      Raises (TypeError (Unexpected_type (fd_type field))) /\
      (is_Some (fd_name field) ->
       call_thunk (S (S fuel)) (get_graphql_fields type_definition) st =
       Raises (TypeError (Unexpected_type (fd_type field))))) /\
  (forall fuel object_type type_definition field rest st,
      _type_definition (obj object_type) = Some type_definition ->
      td_is_input type_definition = true ->
      td_fields type_definition = field :: rest ->
      unconvertible field ->
      from_input_object_type (S (S (S (S fuel)))) object_type st =
      Raises (TypeError (Unexpected_type (fd_type field)))) /\
  (forall fuel object_type type_definition st t st',
      _type_definition (obj object_type) = Some type_definition ->
      td_is_input type_definition = true ->
      from_input_object_type (S fuel) object_type st = Returns t st' ->
      exists fields st1,
        mapM (fun field =>
                input_field <- from_input_field fuel field ;;
                ret (fd_name field, input_field))
             (td_fields type_definition) st = Returns fields st1 /\
        t = GraphQLInputObjectType (allocated st1) (td_name type_definition)
              (dict_of_pairs fields) (td_description type_definition)).
Proof.
  split; [|split; [|split; [|split]]].
  - intros. apply from_object_type_miss; assumption.
  - intros. apply from_interface_miss; assumption.
  - intros fuel td field rest st Hfields Hbad. split.
    + unfold call_thunk. apply bind_of_Raises. rewrite Hfields, mapM_cons.
      apply bind_of_Raises, bind_of_Raises. unfold from_field.
      apply bind_of_Raises, unconvertible_field, Hbad.
    + intros [name Hname]. unfold call_thunk. rewrite Hfields, foldM_cons.
      apply bind_of_Raises. rewrite Hname. unfold assert_is_not_None.
      unfold bind at 1. unfold ret at 1.
      apply bind_of_Raises. unfold from_field.
      apply bind_of_Raises, unconvertible_field, Hbad.
  - intros fuel object_type td field rest st Htd Hin Hfields Hbad.
    rewrite (from_input_object_type_S _ _ _ _ Htd Hin).
    apply bind_of_Raises. rewrite Hfields, mapM_cons.
    apply bind_of_Raises, bind_of_Raises.
    change (from_input_field (S (S (S fuel))) field st) with
      ((field_type <- get_graphql_type_field (S (S fuel)) (Field field) ;;
        ret (mkGraphQLInputField field_type
               (if py_in (fd_default_value field) [undefined; UNSET] then Undefined
                else fd_default_value field) (fd_description field))) st).
    apply bind_of_Raises, unconvertible_field, Hbad.
  - intros fuel object_type td st t st' Htd Hin H.
    rewrite (from_input_object_type_S _ _ _ _ Htd Hin) in H.
    apply bind_Returns in H as (fields & st1 & Hfields & H).
    unfold new in H. injection H as <- <-. eauto.
Qed.

(** ** The cache: which builders return the cached instance *)

Lemma from_object_type_cached object_type st t st' :
  from_object_type object_type st = Returns t st' ->
  exists type_definition concrete_type,
    _type_definition (obj object_type) = Some type_definition /\
    type_map st' !! td_name type_definition = Some concrete_type /\
    implementation concrete_type = t /\
    isinstance_GraphQLObjectType t = true.
Proof.
  unfold from_object_type. intros H.
  destruct (_type_definition (obj object_type)) as [td|]; [|discriminate].
  apply bind_Returns in H as (cached & st0 & Hget & H).
  unfold type_map_get in Hget. injection Hget as <- <-.
  exists td. destruct (type_map st !! td_name td) as [ct|] eqn:Hlookup.
  - returns_inv H. eauto.
  - returns_inv H. eexists. split; [reflexivity|].
    split; [apply lookup_insert_eq|]. split; reflexivity.
Qed.

Lemma from_interface_cached interface st t st' :
  from_interface interface st = Returns t st' ->
  exists concrete_type,
    type_map st' !! td_name interface = Some concrete_type /\
    implementation concrete_type = t /\
    isinstance_GraphQLInterfaceType t = true.
Proof.
  rewrite from_interface_eq. intros H.
  apply bind_Returns in H as (cached & st0 & Hget & H).
  unfold type_map_get in Hget. injection Hget as <- <-.
  destruct (type_map st !! td_name interface) as [ct|] eqn:Hlookup.
  - returns_inv H. eauto.
  - returns_inv H. eexists. split; [apply lookup_insert_eq|]. split; reflexivity.
Qed.

Lemma from_enum_cached enum st t st' :
  from_enum enum st = Returns t st' ->
  exists name concrete_type,
    enum_name enum = Some name /\
    type_map st' !! name = Some concrete_type /\
    implementation concrete_type = t /\
    isinstance_GraphQLEnumType t = true.
Proof.
  unfold from_enum. intros H.
  apply bind_Returns in H as (name & st0 & Hname & H).
  apply assert_is_not_None_Returns in Hname as [Hname ->].
  apply bind_Returns in H as (cached & st0 & Hget & H).
  unfold type_map_get in Hget. injection Hget as <- <-.
  exists name. destruct (type_map st !! name) as [ct|] eqn:Hlookup.
  - returns_inv H. eauto.
  - returns_inv H. eexists. split; [exact Hname|].
    split; [apply lookup_insert_eq|]. split; reflexivity.
Qed.

Lemma from_union_cached fuel union st t st' :
  from_union fuel union st = Returns t st' ->
  exists concrete_type,
    type_map st' !! union_name union = Some concrete_type /\
    implementation concrete_type = t /\
    isinstance_GraphQLUnionType t = true.
Proof.
  destruct fuel as [|fuel]; [discriminate|]. rewrite from_union_S. intros H.
  apply bind_Returns in H as (cached & st0 & Hget & H).
  unfold type_map_get in Hget. injection Hget as <- <-.
  destruct (type_map st !! union_name union) as [ct|] eqn:Hlookup.
  - returns_inv H. eauto.
  - returns_inv H. eexists. split; [apply lookup_insert_eq|]. split; reflexivity.
Qed.

Lemma from_object_type_idempotent object_type st t st' :
  from_object_type object_type st = Returns t st' ->
  from_object_type object_type st' = Returns t st'.
Proof.
  intros H.
  apply from_object_type_cached in H as (td & ct & Htd & Hhit & <- & Hinst).
  exact (from_object_type_hit _ _ _ _ Htd Hhit Hinst).
Qed.

(** The object, interface, enum and union builders return the instance
    they returned before when they are called again: each looks its name up
    first ("Don't reevaluate known types"), and entered the instance under
    that name when it built it. *)
Theorem cached_builders_idempotent :
  (forall object_type st t st',
      from_object_type object_type st = Returns t st' ->
      from_object_type object_type st' = Returns t st') /\
  (forall interface st t st',
      from_interface interface st = Returns t st' ->
      from_interface interface st' = Returns t st') /\
  (forall enum st t st',
      from_enum enum st = Returns t st' ->
      from_enum enum st' = Returns t st') /\
  (forall fuel union st t st',
      from_union fuel union st = Returns t st' ->
      from_union fuel union st' = Returns t st').
Proof.
  repeat split.
  - apply from_object_type_idempotent.
  - intros interface st t st' H.
    apply from_interface_cached in H as (ct & Hhit & <- & Hinst).
    exact (from_interface_hit _ _ _ Hhit Hinst).
  - intros enum st t st' H.
    apply from_enum_cached in H as (name & ct & Hname & Hhit & <- & Hinst).
    unfold from_enum. rewrite Hname. unfold assert_is_not_None.
    unfold bind at 1. unfold ret at 1. unfold bind at 1. unfold type_map_get.
    rewrite Hhit. unfold bind, assert. rewrite Hinst. reflexivity.
  - intros fuel union st t st' H.
    pose proof H as H'.
    apply from_union_cached in H as (ct & Hhit & <- & Hinst).
    destruct fuel as [|fuel]; [discriminate|]. rewrite from_union_S.
    unfold bind at 1. unfold type_map_get. rewrite Hhit.
    unfold bind, assert. rewrite Hinst. reflexivity.
Qed.

(** ** Identities only grow *)

Lemma later_ret {A} (a : A) : later (ret a).
Proof. intros st a' st' [= _ <-]. reflexivity. Qed.

Lemma later_raise {A} e : later (@raise A e).
Proof. intros st a st'. discriminate. Qed.

Lemma later_bind {A B} (m : M A) (k : A -> M B) :
  later m -> (forall a, later (k a)) -> later (bind m k).
Proof.
  intros Hm Hk st b st' H. apply bind_Returns in H as (a & st1 & H1 & H2).
  etrans; [exact (Hm _ _ _ H1) | exact (Hk _ _ _ _ H2)].
Qed.

Lemma later_assert b : later (assert b).
Proof. destruct b; [apply later_ret | apply later_raise]. Qed.

Lemma later_assert_is_not_None {A} (x : option A) : later (assert_is_not_None x).
Proof. destruct x; [apply later_ret | apply later_raise]. Qed.

Lemma later_type_map_get name : later (type_map_get name).
Proof. intros st a st' [= _ <-]. reflexivity. Qed.

Lemma later_type_map_set name ct : later (type_map_set name ct).
Proof. intros st a st' [= _ <-]. reflexivity. Qed.

Lemma later_new make : later (new make).
Proof. intros st a st' [= _ <-]. simpl. lia. Qed.

Lemma later_mapM {A B} (f : A -> M B) xs :
  Forall (fun x => later (f x)) xs -> later (mapM f xs).
Proof.
  induction 1 as [|x xs Hx _ IH].
  - apply later_ret.
  - rewrite mapM_cons. apply later_bind; [exact Hx|]. intros y.
    apply later_bind; [exact IH|]. intros ys. apply later_ret.
Qed.

Lemma later_foldM {A B} (f : B -> A -> M B) xs :
  Forall (fun x => forall acc, later (f acc x)) xs ->
  forall acc, later (foldM f xs acc).
Proof.
  induction 1 as [|x xs Hx _ IH]; intros acc.
  - apply later_ret.
  - rewrite foldM_cons. apply later_bind; [apply Hx | exact IH].
Qed.

Create HintDb later.
#[local] Hint Resolve later_ret later_raise later_assert later_assert_is_not_None
  later_type_map_get later_type_map_set later_new : later.

Ltac later_step :=
  lazymatch goal with
  | |- later (bind _ _) => apply later_bind; [|intros ?]
  | |- later (mapM _ _) => apply later_mapM
  | |- later (foldM _ _ _) => apply later_foldM
  | |- later (match ?x with _ => _ end) => destruct x eqn:?
  | |- later _ => solve [auto with later]
  end.

Lemma later_from_enum enum : later (from_enum enum).
Proof. unfold from_enum. repeat later_step. Qed.

Lemma later_from_interface interface : later (from_interface interface).
Proof.
  induction interface as [td IH] using TypeDefinition_nested_ind.
  rewrite from_interface_eq. repeat later_step. exact IH.
Qed.

Lemma later_from_object_type object_type : later (from_object_type object_type).
Proof.
  unfold from_object_type. repeat later_step.
  apply Forall_forall. intros i _. apply later_from_interface.
Qed.

Section allocation.

(** The scalar registry creates objects too; identities it hands out are
    not taken back. *)
Hypothesis get_scalar_type_later :
  forall scalar st, allocated st <= allocated (get_scalar_type scalar st).2.

Lemma later_from_scalar scalar : later (from_scalar scalar).
Proof.
  intros st t st'. unfold from_scalar.
  pose proof (get_scalar_type_later scalar st) as H.
  destruct (get_scalar_type scalar st). intros [= _ <-]. exact H.
Qed.

Lemma later_dispatcher fuel :
  (forall field, later (get_graphql_type_field fuel field)) /\
  (forall type_, later (get_graphql_type fuel type_)) /\
  (forall list_, later (from_list fuel list_)) /\
  (forall union, later (from_union fuel union)) /\
  (forall object_type, later (from_input_object_type fuel object_type)) /\
  (forall field, later (from_input_field fuel field)).
Proof.
  induction fuel as [|fuel (IHfield & IHtype & IHlist & IHunion & IHinput & IHif)].
  { repeat split; intros; simpl; auto with later. }
  repeat split.
  - intros field. simpl. repeat later_step; auto.
  - intros type_. simpl. repeat later_step; auto using later_from_interface,
      later_from_object_type, later_from_enum, later_from_scalar.
  - intros list_. simpl. repeat later_step; auto.
  - intros union. simpl. repeat later_step; auto.
    apply Forall_forall. intros type_ _. repeat later_step; auto.
  - intros object_type. simpl. repeat later_step.
    apply Forall_forall. intros field _. repeat later_step; auto.
  - intros field. simpl. repeat later_step; auto.
Qed.

(** C1 at the input builder.  [from_input_object_type] neither looks its
    name up in the cache nor enters it: converting the same input type
    definition a second time creates a second [GraphQLInputObjectType], with
    an identity of its own. *)
Theorem input_object_type_rebuilt fuel fuel' object_type st t1 st1 t2 st2 :
  from_input_object_type fuel object_type st = Returns t1 st1 ->
  from_input_object_type fuel' object_type st1 = Returns t2 st2 ->
  exists id1 id2,
    id_of t1 = Some id1 /\ id_of t2 = Some id2 /\ id1 < id2 /\ t1 <> t2.
Proof.
  intros H1 H2.
  assert (Hshape : forall fuel st t st',
             from_input_object_type fuel object_type st = Returns t st' ->
             exists id, id_of t = Some id /\ allocated st <= id /\
                        allocated st' = S id).
  { clear H1 H2. intros fuel0 st0 t st' H.
    destruct fuel0 as [|fuel0]; [discriminate|]. simpl in H.
    destruct (_type_definition (obj object_type)) as [td|]; [|discriminate].
    destruct (negb (td_is_input td)); [discriminate|].
    apply bind_Returns in H as (fields & st3 & Hfields & H).
    unfold new in H. injection H as <- <-. eexists. split; [reflexivity|].
    split; [|reflexivity].
    refine (later_mapM _ _ _ _ _ _ Hfields).
    apply Forall_forall. intros field _. repeat later_step.
    apply (later_dispatcher fuel0). }
  apply Hshape in H1 as (id1 & Hid1 & _ & Hst1).
  apply Hshape in H2 as (id2 & Hid2 & Hle & _).
  exists id1, id2. repeat split; auto; [lia|].
  intros ->. rewrite Hid1 in Hid2. injection Hid2 as ->. lia.
Qed.

End allocation.

(** ** Types that refer to each other *)

Lemma all_names_eq td : all_names td = td_name td :: interface_names td.
Proof. destruct td; reflexivity. Qed.

Lemma interfaces_added_refl names st : interfaces_added names st st.
Proof. intros n. left. reflexivity. Qed.

Lemma interfaces_added_trans names1 names2 st st1 st2 :
  interfaces_added names1 st st1 ->
  interfaces_added names2 st1 st2 ->
  interfaces_added (names1 ++ names2) st st2.
Proof.
  intros H1 H2 n.
  destruct (H1 n) as [E1|(Hin1 & Hfree1 & ct1 & Hct1 & Hi1)],
           (H2 n) as [E2|(Hin2 & Hfree2 & ct2 & Hct2 & Hi2)].
  - left. congruence.
  - right. rewrite E1 in Hfree2. repeat split; [set_solver | exact Hfree2 | eauto].
  - right. rewrite <- E2 in Hct1. repeat split; [set_solver | exact Hfree1 | eauto].
  - congruence.
Qed.

Lemma interfaces_added_weaken names names' st st' :
  names ⊆ names' -> interfaces_added names st st' -> interfaces_added names' st st'.
Proof.
  intros Hsub H n. destruct (H n) as [E|(Hin & ?)]; [left; exact E|].
  right. split; [apply Hsub, Hin | assumption].
Qed.

Lemma interfaces_at_added names names' st st' :
  interfaces_at names st -> interfaces_added names' st st' -> interfaces_at names st'.
Proof.
  intros Hat Hadd n ct Hin Hct.
  destruct (Hadd n) as [E|(_ & _ & ct' & Hct' & Hi)].
  - rewrite E in Hct. exact (Hat _ _ Hin Hct).
  - congruence.
Qed.

Lemma interfaces_at_weaken names names' st :
  names ⊆ names' -> interfaces_at names' st -> interfaces_at names st.
Proof. intros Hsub H n ct Hin. apply H, Hsub, Hin. Qed.

Lemma interfaces_added_outside names st st' n :
  interfaces_added names st st' -> n ∉ names ->
  type_map st' !! n = type_map st !! n.
Proof. intros H Hn. destruct (H n) as [E|(Hin & _)]; [exact E | contradiction]. Qed.

Lemma from_interfaces_ok interfaces :
  Forall (fun interface => forall st,
            interfaces_at (all_names interface) st ->
            exists t st',
              from_interface interface st = Returns t st' /\
              isinstance_GraphQLInterfaceType t = true /\
              interfaces_added (all_names interface) st st') interfaces ->
  forall st,
    interfaces_at (flat_map all_names interfaces) st ->
    exists ts st',
      mapM from_interface interfaces st = Returns ts st' /\
      interfaces_added (flat_map all_names interfaces) st st'.
Proof.
  induction 1 as [|interface interfaces Hi _ IH]; intros st Hat.
  - exists [], st. split; [reflexivity | apply interfaces_added_refl].
  - simpl in Hat.
    destruct (Hi st) as (t & st1 & Ht & _ & Hadd1).
    { eapply interfaces_at_weaken; [|exact Hat]. set_solver. }
    destruct (IH st1) as (ts & st2 & Hts & Hadd2).
    { eapply interfaces_at_added; [|exact Hadd1].
      eapply interfaces_at_weaken; [|exact Hat]. set_solver. }
    exists (t :: ts), st2. split.
    + rewrite mapM_cons, (bind_of_Returns _ _ _ _ _ Ht),
        (bind_of_Returns _ _ _ _ _ Hts). reflexivity.
    + simpl. eapply interfaces_added_trans; eassumption.
Qed.

Lemma from_interface_ok interface : forall st,
  interfaces_at (all_names interface) st ->
  exists t st',
    from_interface interface st = Returns t st' /\
    isinstance_GraphQLInterfaceType t = true /\
    interfaces_added (all_names interface) st st'.
Proof.
  induction interface as [td IH] using TypeDefinition_nested_ind.
  intros st Hat. rewrite all_names_eq in Hat |- *.
  destruct (type_map st !! td_name td) as [ct|] eqn:Hlookup.
  - assert (Hi : isinstance_GraphQLInterfaceType (implementation ct) = true).
    { eapply Hat; [|exact Hlookup]. set_solver. }
    exists (implementation ct), st. split; [|split].
    + exact (from_interface_hit _ _ _ Hlookup Hi).
    + exact Hi.
    + apply interfaces_added_refl.
  - destruct (from_interfaces_ok _ IH st) as (ts & st1 & Hts & Hadd).
    { eapply interfaces_at_weaken; [|exact Hat]. unfold interface_names. set_solver. }
    eexists _, _. split; [|split].
    + exact (from_interface_miss _ _ _ _ Hlookup Hts).
    + reflexivity.
    + intros n. simpl. destruct (decide (n = td_name td)) as [->|Hne].
      * right. split; [set_solver|]. split; [exact Hlookup|].
        eexists. split; [apply lookup_insert_eq | reflexivity].
      * rewrite lookup_insert_ne by congruence.
        destruct (Hadd n) as [E|(Hin & Hfree & Hct)]; [left; exact E|].
        right. split; [|split; assumption]. unfold interface_names. set_solver.
Qed.

Lemma from_object_type_ok object_type type_definition st :
  _type_definition (obj object_type) = Some type_definition ->
  type_map st !! td_name type_definition = None ->
  interfaces_at (interface_names type_definition) st ->
  exists interfaces st1,
    interfaces_added (interface_names type_definition) st st1 /\
    let graphql_object_type :=
      GraphQLObjectType (allocated st1) (td_name type_definition)
        (object_fields type_definition) interfaces (td_origin type_definition)
        (td_description type_definition) in
    from_object_type object_type st =
    Returns graphql_object_type
      {| type_map :=
           <[td_name type_definition :=
               {| definition := OfTypeDefinition type_definition;
                  implementation := graphql_object_type |}]> (type_map st1);
         allocated := S (allocated st1) |}.
Proof.
  intros Htd Hmiss Hat.
  destruct (from_interfaces_ok (td_interfaces type_definition)) with (st := st)
    as (ts & st1 & Hts & Hadd).
  { apply Forall_forall. intros i _. apply from_interface_ok. }
  { exact Hat. }
  exists ts, st1. split; [exact Hadd|].
  exact (from_object_type_miss _ _ _ _ _ Htd Hmiss Hts).
Qed.

(** ** How a builder can have returned *)

Lemma from_enum_inv enum st t st' :
  from_enum enum st = Returns t st' ->
  exists name,
    enum_name enum = Some name /\
    ((exists ct, type_map st !! name = Some ct /\ t = implementation ct /\
                 isinstance_GraphQLEnumType t = true /\ st' = st) \/
     (type_map st !! name = None /\
      t = GraphQLEnumType (allocated st) name
            (dict_of_pairs (map (fun item => (ev_name item, from_enum_value item))
                                (enum_values enum)))
            (enum_description enum) /\
      st' = {| type_map := <[name := {| definition := OfEnumDefinition enum;
                                        implementation := t |}]> (type_map st);
               allocated := S (allocated st) |})).
Proof.
  unfold from_enum. intros H.
  apply bind_Returns in H as (name & st0 & Hname & H).
  apply assert_is_not_None_Returns in Hname as [Hname ->].
  apply bind_Returns in H as (cached & st0 & Hget & H).
  unfold type_map_get in Hget. injection Hget as <- <-.
  exists name. split; [exact Hname|].
  destruct (type_map st !! name) as [ct|] eqn:Hlookup.
  - left. returns_inv H. eauto.
  - right. returns_inv H. auto.
Qed.

Lemma from_interface_inv interface st t st' :
  from_interface interface st = Returns t st' ->
  (exists ct, type_map st !! td_name interface = Some ct /\ t = implementation ct /\
              isinstance_GraphQLInterfaceType t = true /\ st' = st) \/
  (type_map st !! td_name interface = None /\
   exists interfaces st1,
     mapM from_interface (td_interfaces interface) st = Returns interfaces st1 /\
     t = GraphQLInterfaceType (allocated st1) (td_name interface)
           (get_graphql_fields interface) interfaces (td_description interface) /\
     st' = {| type_map := <[td_name interface :=
                              {| definition := OfTypeDefinition interface;
                                 implementation := t |}]> (type_map st1);
              allocated := S (allocated st1) |}).
Proof.
  rewrite from_interface_eq. intros H.
  apply bind_Returns in H as (cached & st0 & Hget & H).
  unfold type_map_get in Hget. injection Hget as <- <-.
  destruct (type_map st !! td_name interface) as [ct|] eqn:Hlookup.
  - left. returns_inv H. eauto.
  - right. returns_inv H. split; [reflexivity|]. eauto.
Qed.

Lemma from_object_type_inv object_type st t st' :
  from_object_type object_type st = Returns t st' ->
  exists type_definition,
    _type_definition (obj object_type) = Some type_definition /\
    ((exists ct, type_map st !! td_name type_definition = Some ct /\
                 t = implementation ct /\
                 isinstance_GraphQLObjectType t = true /\ st' = st) \/
     (type_map st !! td_name type_definition = None /\
      exists interfaces st1,
        mapM from_interface (td_interfaces type_definition) st = Returns interfaces st1 /\
        t = GraphQLObjectType (allocated st1) (td_name type_definition)
              (object_fields type_definition) interfaces
              (td_origin type_definition) (td_description type_definition) /\
        st' = {| type_map := <[td_name type_definition :=
                                 {| definition := OfTypeDefinition type_definition;
                                    implementation := t |}]> (type_map st1);
                 allocated := S (allocated st1) |})).
Proof.
  unfold from_object_type. intros H.
  destruct (_type_definition (obj object_type)) as [td|]; [|discriminate].
  apply bind_Returns in H as (cached & st0 & Hget & H).
  unfold type_map_get in Hget. injection Hget as <- <-.
  exists td. split; [reflexivity|].
  destruct (type_map st !! td_name td) as [ct|] eqn:Hlookup.
  - left. returns_inv H. eauto.
  - right. returns_inv H. split; [reflexivity|]. eauto.
Qed.

Lemma from_union_inv fuel union st t st' :
  from_union fuel union st = Returns t st' ->
  exists fuel',
    fuel = S fuel' /\
    ((exists ct, type_map st !! union_name union = Some ct /\ t = implementation ct /\
                 isinstance_GraphQLUnionType t = true /\ st' = st) \/
     (type_map st !! union_name union = None /\
      exists graphql_types st1,
        mapM (union_member fuel') (union_types union) st = Returns graphql_types st1 /\
        t = GraphQLUnionType (allocated st1) (union_name union) graphql_types
              (union_description union) (get_type_resolver union self_type_map) /\
        st' = {| type_map := <[union_name union :=
                                 {| definition := OfStrawberryUnion union;
                                    implementation := t |}]> (type_map st1);
                 allocated := S (allocated st1) |})).
Proof.
  destruct fuel as [|fuel]; [discriminate|]. rewrite from_union_S. intros H.
  exists fuel. split; [reflexivity|].
  apply bind_Returns in H as (cached & st0 & Hget & H).
  unfold type_map_get in Hget. injection Hget as <- <-.
  destruct (type_map st !! union_name union) as [ct|] eqn:Hlookup.
  - left. returns_inv H. eauto.
  - right. returns_inv H. split; [reflexivity|]. eauto.
Qed.

(** ** Names that collide *)

(** Two definitions with one name.  The cache is keyed by name alone: once a
    type is built, a second definition of the same kind with the same name
    gets the first one's instance, whatever its own fields, interfaces,
    values or members are, and nothing is built for it. *)
Theorem same_name_gets_cached_instance :
  (forall object_type1 object_type2 definition1 definition2 st t st',
      _type_definition (obj object_type1) = Some definition1 ->
      _type_definition (obj object_type2) = Some definition2 ->
      td_name definition2 = td_name definition1 ->
      from_object_type object_type1 st = Returns t st' ->
      from_object_type object_type2 st' = Returns t st') /\
  (forall interface1 interface2 st t st',
      td_name interface2 = td_name interface1 ->
      from_interface interface1 st = Returns t st' ->
      from_interface interface2 st' = Returns t st') /\
  (forall enum1 enum2 st t st',
      enum_name enum2 = enum_name enum1 ->
      from_enum enum1 st = Returns t st' ->
      from_enum enum2 st' = Returns t st') /\
  (forall fuel union1 union2 st t st',
      union_name union2 = union_name union1 ->
      from_union fuel union1 st = Returns t st' ->
      from_union fuel union2 st' = Returns t st').
Proof.
  repeat split.
  - intros object_type1 object_type2 d1 d2 st t st' H1 H2 Hname H.
    apply from_object_type_cached in H as (td & ct & Htd & Hhit & <- & Hinst).
    assert (td = d1) as -> by congruence. rewrite <- Hname in Hhit.
    exact (from_object_type_hit _ _ _ _ H2 Hhit Hinst).
  - intros interface1 interface2 st t st' Hname H.
    apply from_interface_cached in H as (ct & Hhit & <- & Hinst).
    rewrite <- Hname in Hhit. exact (from_interface_hit _ _ _ Hhit Hinst).
  - intros enum1 enum2 st t st' Hname H.
    apply from_enum_cached in H as (name & ct & Hname1 & Hhit & <- & Hinst).
    unfold from_enum. rewrite Hname, Hname1. unfold assert_is_not_None.
    unfold bind at 1. unfold ret at 1. unfold bind at 1. unfold type_map_get.
    rewrite Hhit. unfold bind, assert. rewrite Hinst. reflexivity.
  - intros fuel union1 union2 st t st' Hname H.
    pose proof H as H'.
    apply from_union_cached in H as (ct & Hhit & <- & Hinst).
    destruct fuel as [|fuel]; [discriminate|]. rewrite from_union_S.
    unfold bind at 1. unfold type_map_get. rewrite Hname, Hhit.
    unfold bind, assert. rewrite Hinst. reflexivity.
Qed.

(** A name that is taken by a type of another kind.  Each of the four
    builders that use the cache, finding under its name an implementation
    that is not of its own kind, fails on its [isinstance] assertion; it
    neither returns the other type nor builds its own. *)
Theorem name_of_another_kind_fails :
  (forall object_type type_definition st ct,
      _type_definition (obj object_type) = Some type_definition ->
      type_map st !! td_name type_definition = Some ct ->
      isinstance_GraphQLObjectType (implementation ct) = false ->
      from_object_type object_type st = Raises AssertionError) /\
  (forall interface st ct,
      type_map st !! td_name interface = Some ct ->
      isinstance_GraphQLInterfaceType (implementation ct) = false ->
      from_interface interface st = Raises AssertionError) /\
  (forall enum name st ct,
      enum_name enum = Some name ->
      type_map st !! name = Some ct ->
      isinstance_GraphQLEnumType (implementation ct) = false ->
      from_enum enum st = Raises AssertionError) /\
  (forall fuel union st ct,
      type_map st !! union_name union = Some ct ->
      isinstance_GraphQLUnionType (implementation ct) = false ->
      from_union (S fuel) union st = Raises AssertionError).
Proof.
  repeat split.
  - intros object_type td st ct Htd Hhit Hnot. unfold from_object_type.
    rewrite Htd. unfold bind at 1. unfold type_map_get. rewrite Hhit.
    unfold bind, assert. rewrite Hnot. reflexivity.
  - intros interface st ct Hhit Hnot. rewrite from_interface_eq.
    unfold bind at 1. unfold type_map_get. rewrite Hhit.
    unfold bind, assert. rewrite Hnot. reflexivity.
  - intros enum name st ct Hname Hhit Hnot. unfold from_enum. rewrite Hname.
    unfold assert_is_not_None. unfold bind at 1. unfold ret at 1.
    unfold bind at 1. unfold type_map_get. rewrite Hhit.
    unfold bind, assert. rewrite Hnot. reflexivity.
  - intros fuel union st ct Hhit Hnot. rewrite from_union_S.
    unfold bind at 1. unfold type_map_get. rewrite Hhit.
    unfold bind, assert. rewrite Hnot. reflexivity.
Qed.

(** ** Input types that refer to themselves *)

(** An input type whose first field is a plain reference to the input type
    itself (as in [input Filter { not: Filter }]) cannot be built: the input
    builder converts its fields while it builds the type, so it calls itself
    without end.  Whatever call depth is allowed, the build ends in
    [RecursionError]. *)
Theorem recursive_input_type_overflows fuel : forall object_type type_definition field rest st,
  _type_definition (obj object_type) = Some type_definition ->
  td_is_input type_definition = true ->
  td_fields type_definition = field :: rest ->
  plain_reference object_type field ->
  from_input_object_type fuel object_type st = Raises RecursionError.
Proof.
  induction fuel as [fuel IH] using lt_wf_ind.
  intros object_type td field rest st Htd Hin Hfields (Hlist & Hunion & Htype).
  destruct fuel as [|fuel]; [reflexivity|].
  rewrite (from_input_object_type_S _ _ _ _ Htd Hin).
  apply bind_of_Raises. rewrite Hfields, mapM_cons.
  apply bind_of_Raises, bind_of_Raises.
  destruct fuel as [|fuel]; [reflexivity|].
  change (from_input_field (S fuel) field st) with
    ((field_type <- get_graphql_type_field fuel (Field field) ;;
      ret (mkGraphQLInputField field_type
             (if py_in (fd_default_value field) [undefined; UNSET] then Undefined
              else fd_default_value field) (fd_description field))) st).
  apply bind_of_Raises.
  destruct fuel as [|fuel]; [reflexivity|].
  rewrite get_graphql_type_field_S. apply bind_of_Raises.
  unfold innermost_type, _is_list, _is_union, fa_type. rewrite Hlist, Hunion, Htype.
  destruct fuel as [|fuel]; [reflexivity|].
  simpl. rewrite Htd, Hin.
  apply (IH fuel) with (type_definition := td) (field := field) (rest := rest);
    [lia | assumption..| repeat split; assumption].
Qed.

(** ** The cache only grows *)

Lemma keeps_cache_ret {A} (a : A) : keeps_cache (ret a).
Proof. intros st a' st' [= _ <-]. reflexivity. Qed.

Lemma keeps_cache_raise {A} e : keeps_cache (@raise A e).
Proof. intros st a st'. discriminate. Qed.

Lemma keeps_cache_bind {A B} (m : M A) (k : A -> M B) :
  keeps_cache m -> (forall a, keeps_cache (k a)) -> keeps_cache (bind m k).
Proof.
  intros Hm Hk st b st' H. apply bind_Returns in H as (a & st1 & H1 & H2).
  etrans; [exact (Hm _ _ _ H1) | exact (Hk _ _ _ _ H2)].
Qed.

Lemma keeps_cache_assert b : keeps_cache (assert b).
Proof. destruct b; [apply keeps_cache_ret | apply keeps_cache_raise]. Qed.

Lemma keeps_cache_assert_is_not_None {A} (x : option A) :
  keeps_cache (assert_is_not_None x).
Proof. destruct x; [apply keeps_cache_ret | apply keeps_cache_raise]. Qed.

Lemma keeps_cache_new make : keeps_cache (new make).
Proof. intros st a st' [= _ <-]. reflexivity. Qed.

Lemma keeps_cache_mapM {A B} (f : A -> M B) xs :
  Forall (fun x => keeps_cache (f x)) xs -> keeps_cache (mapM f xs).
Proof.
  induction 1 as [|x xs Hx _ IH].
  - apply keeps_cache_ret.
  - rewrite mapM_cons. apply keeps_cache_bind; [exact Hx|]. intros y.
    apply keeps_cache_bind; [exact IH|]. intros ys. apply keeps_cache_ret.
Qed.

Lemma keeps_cache_foldM {A B} (f : B -> A -> M B) xs :
  Forall (fun x => forall acc, keeps_cache (f acc x)) xs ->
  forall acc, keeps_cache (foldM f xs acc).
Proof.
  induction 1 as [|x xs Hx _ IH]; intros acc.
  - apply keeps_cache_ret.
  - rewrite foldM_cons. apply keeps_cache_bind; [apply Hx | exact IH].
Qed.

Create HintDb keeps.
#[local] Hint Resolve keeps_cache_ret keeps_cache_raise keeps_cache_assert
  keeps_cache_assert_is_not_None keeps_cache_new : keeps.

Ltac keeps_cache_step :=
  lazymatch goal with
  | |- keeps_cache (bind _ _) => apply keeps_cache_bind; [|intros ?]
  | |- keeps_cache (mapM _ _) => apply keeps_cache_mapM
  | |- keeps_cache (foldM _ _ _) => apply keeps_cache_foldM
  | |- keeps_cache (match ?x with _ => _ end) => destruct x eqn:?
  | |- keeps_cache _ => solve [auto with keeps]
  end.

Lemma keeps_cache_from_enum enum : keeps_cache (from_enum enum).
Proof.
  intros st t st' H.
  apply from_enum_inv in H as (name & _ & [(ct & _ & _ & _ & ->)|(Hmiss & _ & ->)]).
  - reflexivity.
  - simpl. apply insert_subseteq, Hmiss.
Qed.

Lemma keeps_cache_from_interface interface : keeps_cache (from_interface interface).
Proof.
  induction interface as [td IH] using TypeDefinition_nested_ind.
  intros st t st' H.
  apply from_interface_inv in H
    as [(ct & _ & _ & _ & ->)|(Hmiss & ifs & st1 & Hifs & _ & ->)].
  - reflexivity.
  - simpl. apply insert_subseteq_r; [exact Hmiss|].
    exact (keeps_cache_mapM _ _ IH _ _ _ Hifs).
Qed.

Lemma keeps_cache_from_object_type object_type :
  keeps_cache (from_object_type object_type).
Proof.
  intros st t st' H.
  apply from_object_type_inv in H
    as (td & _ & [(ct & _ & _ & _ & ->)|(Hmiss & ifs & st1 & Hifs & _ & ->)]).
  - reflexivity.
  - simpl. apply insert_subseteq_r; [exact Hmiss|].
    refine (keeps_cache_mapM _ _ _ _ _ _ Hifs).
    apply Forall_forall. intros i _. apply keeps_cache_from_interface.
Qed.

Section cache_only_grows.

(** The scalar registry, which is handed the cache, leaves its entries as
    they are. *)
Hypothesis get_scalar_type_keeps_cache :
  forall scalar st, type_map st ⊆ type_map (get_scalar_type scalar st).2.

Lemma keeps_cache_from_scalar scalar : keeps_cache (from_scalar scalar).
Proof.
  intros st t st'. unfold from_scalar.
  pose proof (get_scalar_type_keeps_cache scalar st) as H.
  destruct (get_scalar_type scalar st). intros [= _ <-]. exact H.
Qed.

Lemma keeps_cache_dispatcher fuel :
  (forall field, keeps_cache (get_graphql_type_field fuel field)) /\
  (forall type_, keeps_cache (get_graphql_type fuel type_)) /\
  (forall list_, keeps_cache (from_list fuel list_)) /\
  (forall union, keeps_cache (from_union fuel union)) /\
  (forall object_type, keeps_cache (from_input_object_type fuel object_type)) /\
  (forall field, keeps_cache (from_input_field fuel field)).
Proof.
  induction fuel as [|fuel (IHfield & IHtype & IHlist & IHunion & IHinput & IHif)].
  { repeat split; intros; simpl; auto with keeps. }
  repeat split.
  - intros field. simpl. repeat keeps_cache_step; auto.
  - intros type_. simpl. repeat keeps_cache_step;
      auto using keeps_cache_from_interface, keeps_cache_from_object_type,
        keeps_cache_from_enum, keeps_cache_from_scalar.
  - intros list_. simpl. repeat keeps_cache_step; auto.
  - intros union st t st' H.
    apply from_union_inv in H
      as (fuel' & [= <-] & [(ct & _ & _ & _ & ->)|(Hmiss & ts & st1 & Hts & _ & ->)]).
    + reflexivity.
    + simpl. apply insert_subseteq_r; [exact Hmiss|].
      refine (keeps_cache_mapM _ _ _ _ _ _ Hts).
      apply Forall_forall. intros type_ _. unfold union_member.
      repeat keeps_cache_step; auto.
  - intros object_type. simpl. repeat keeps_cache_step.
    apply Forall_forall. intros field _. repeat keeps_cache_step; auto.
  - intros field. simpl. repeat keeps_cache_step; auto.
Qed.

(** Whatever is converted, an entry that is in the cache stays in the
    cache with the implementation it has: no method of the converter removes
    an entry or replaces the implementation of a name that was there when it
    was called.  (This needs the same of the scalar registry, which writes
    to the cache too.) *)
Theorem cache_only_grows fuel :
  (forall field, keeps_cache (get_graphql_type_field fuel field)) /\
  (forall type_, keeps_cache (get_graphql_type fuel type_)) /\
  (forall union, keeps_cache (from_union fuel union)) /\
  (forall object_type, keeps_cache (from_input_object_type fuel object_type)) /\
  (forall object_type, keeps_cache (from_object_type object_type)) /\
  (forall interface, keeps_cache (from_interface interface)) /\
  (forall enum, keeps_cache (from_enum enum)) /\
  (forall argument, keeps_cache (from_argument fuel argument)) /\
  (forall directive, keeps_cache (from_directive fuel directive)) /\
  (forall field, keeps_cache (from_field fuel field)) /\
  (forall thunk, keeps_cache (call_thunk fuel thunk)).
Proof.
  destruct (keeps_cache_dispatcher fuel) as (Hfield & Htype & _ & Hunion & Hinput & _).
  assert (Hargument : forall argument, keeps_cache (from_argument fuel argument)).
  { intros argument. unfold from_argument. repeat keeps_cache_step; auto. }
  assert (Harguments : forall arguments, keeps_cache (from_arguments fuel arguments)).
  { intros arguments. unfold from_arguments. apply keeps_cache_foldM.
    apply Forall_forall. intros argument _ acc. repeat keeps_cache_step; auto. }
  assert (Hff : forall field, keeps_cache (from_field fuel field)).
  { intros field. unfold from_field. apply keeps_cache_bind; [apply Hfield|].
    intros t. destruct (fd_is_subscription field); repeat keeps_cache_step; auto. }
  repeat split; auto using keeps_cache_from_object_type,
    keeps_cache_from_interface, keeps_cache_from_enum.
  - intros directive. unfold from_directive. repeat keeps_cache_step; auto.
  - intros [td|td]; unfold call_thunk.
    + repeat keeps_cache_step.
      apply Forall_forall. intros field _. repeat keeps_cache_step; auto.
    + apply keeps_cache_foldM. apply Forall_forall. intros field _ acc.
      repeat keeps_cache_step; auto.
Qed.

End cache_only_grows.

(** ** What building an object or interface type touches *)

Lemma from_interfaces_footprint interfaces :
  Forall (fun interface => forall st t st',
            from_interface interface st = Returns t st' ->
            (forall n, n ∉ all_names interface ->
                       type_map st' !! n = type_map st !! n) /\
            allocated st' <= allocated st + length (all_names interface))
         interfaces ->
  forall st ts st',
    mapM from_interface interfaces st = Returns ts st' ->
    (forall n, n ∉ flat_map all_names interfaces ->
               type_map st' !! n = type_map st !! n) /\
    allocated st' <= allocated st + length (flat_map all_names interfaces).
Proof.
  induction 1 as [|interface interfaces Hi _ IH]; intros st ts st' H.
  - simpl in H. unfold ret in H. injection H as _ <-. simpl. split; [auto | lia].
  - rewrite mapM_cons in H. returns_inv H.
    destruct (Hi _ _ _ H0) as (Hframe1 & Hcount1).
    destruct (IH _ _ _ H1) as (Hframe2 & Hcount2).
    simpl. rewrite length_app. split; [|lia].
    intros n Hn. rewrite Hframe2, Hframe1; [reflexivity|set_solver..].
Qed.

Lemma from_interface_footprint interface : forall st t st',
  from_interface interface st = Returns t st' ->
  (forall n, n ∉ all_names interface -> type_map st' !! n = type_map st !! n) /\
  allocated st' <= allocated st + length (all_names interface).
Proof.
  induction interface as [td IH] using TypeDefinition_nested_ind.
  intros st t st' H. rewrite all_names_eq.
  apply from_interface_inv in H
    as [(ct & _ & _ & _ & ->)|(Hmiss & ifs & st1 & Hifs & _ & ->)].
  - split; [reflexivity | lia].
  - destruct (from_interfaces_footprint _ IH _ _ _ Hifs) as (Hframe & Hcount).
    fold (interface_names td) in Hframe, Hcount. simpl. split; [|lia].
    intros n Hn. rewrite lookup_insert_ne by set_solver.
    apply Hframe. set_solver.
Qed.

Lemma from_interfaces_frame interfaces st ts st' :
  mapM from_interface interfaces st = Returns ts st' ->
  forall n, n ∉ flat_map all_names interfaces -> type_map st' !! n = type_map st !! n.
Proof.
  intros H. refine (proj1 (from_interfaces_footprint interfaces _ _ _ _ H)).
  apply Forall_forall. intros i _. apply from_interface_footprint.
Qed.

Lemma well_named_eq td :
  well_named td =
  bool_decide (td_name td ∉ interface_names td) && forallb well_named (td_interfaces td).
Proof. destruct td; reflexivity. Qed.

Lemma from_interfaces_exact interfaces :
  Forall (fun interface => forall st t st',
            well_named interface = true ->
            from_interface interface st = Returns t st' ->
            one_object_per_entry st st') interfaces ->
  forallb well_named interfaces = true ->
  forall st ts st',
    mapM from_interface interfaces st = Returns ts st' ->
    one_object_per_entry st st'.
Proof.
  unfold one_object_per_entry.
  induction 1 as [|interface interfaces Hi _ IH]; intros Hwell st ts st' H.
  - simpl in H. unfold ret in H. injection H as _ <-. reflexivity.
  - simpl in Hwell. apply andb_true_iff in Hwell as [Hwell1 Hwell2].
    rewrite mapM_cons in H. returns_inv H.
    pose proof (Hi _ _ _ Hwell1 H0). pose proof (IH Hwell2 _ _ _ H1). lia.
Qed.

Lemma from_interface_exact interface : forall st t st',
  well_named interface = true ->
  from_interface interface st = Returns t st' ->
  one_object_per_entry st st'.
Proof.
  induction interface as [td IH] using TypeDefinition_nested_ind.
  intros st t st' Hwell H. rewrite well_named_eq in Hwell.
  apply andb_true_iff in Hwell as [Hname Hwell]. apply bool_decide_eq_true in Hname.
  apply from_interface_inv in H
    as [(ct & _ & _ & _ & ->)|(Hmiss & ifs & st1 & Hifs & _ & ->)].
  - reflexivity.
  - pose proof (from_interfaces_exact _ IH Hwell _ _ _ Hifs) as Hexact.
    unfold one_object_per_entry in *. simpl.
    rewrite map_size_insert_None; [lia|].
    rewrite (from_interfaces_frame _ _ _ _ Hifs _ Hname). exact Hmiss.
Qed.

Lemma new_entries_bound (names : list string) (m m' : gmap string ConcreteType) :
  (forall n, n ∉ names -> m' !! n = m !! n) ->
  size m' <= size m + size (list_to_set names : gset string).
Proof.
  intros Hframe. rewrite <- !size_dom.
  etrans; [apply (subseteq_size _ (dom m ∪ list_to_set names))|].
  - intros n Hn. apply elem_of_dom in Hn.
    destruct (decide (n ∈ names)) as [Hin|Hout]; [set_solver|].
    rewrite (Hframe _ Hout) in Hn. apply elem_of_dom in Hn. set_solver.
  - rewrite size_union_alt.
    assert (Hsub : list_to_set names ∖ dom m ⊆ (list_to_set names : gset string))
      by set_solver.
    apply subseteq_size in Hsub. lia.
Qed.

(** Building an object type or an interface type writes to the cache only
    under its own name and the names of the interfaces reachable from it: no
    type of a field is entered.  It creates at most one object per
    occurrence of a name in that list.  Where no definition bears the name of
    an interface reachable from itself, it creates exactly as many objects as
    it adds entries, so at most one per name.  That condition cannot be
    dropped: an object type named like its only interface creates two
    objects, of which the cache keeps one. *)
Theorem construction_footprint :
  (forall interface st t st',
      from_interface interface st = Returns t st' ->
      (forall n, n ∉ all_names interface -> type_map st' !! n = type_map st !! n) /\
      allocated st' <= allocated st + length (all_names interface) /\
      (well_named interface = true ->
       allocated st' + size (type_map st) = allocated st + size (type_map st') /\
       allocated st' <=
         allocated st + size (list_to_set (all_names interface) : gset string))) /\
  (forall object_type type_definition st t st',
      _type_definition (obj object_type) = Some type_definition ->
      from_object_type object_type st = Returns t st' ->
      (forall n, n ∉ all_names type_definition ->
                 type_map st' !! n = type_map st !! n) /\
      allocated st' <= allocated st + length (all_names type_definition) /\
      (well_named type_definition = true ->
       allocated st' + size (type_map st) = allocated st + size (type_map st') /\
       allocated st' <=
         allocated st + size (list_to_set (all_names type_definition) : gset string))) /\
  (forall object_type type_definition interface st,
      _type_definition (obj object_type) = Some type_definition ->
      td_interfaces type_definition = [interface] ->
      td_interfaces interface = [] ->
      td_name interface = td_name type_definition ->
      type_map st !! td_name type_definition = None ->
      exists t st',
        from_object_type object_type st = Returns t st' /\
        isinstance_GraphQLObjectType t = true /\
        allocated st' = allocated st + 2 /\
        size (type_map st') = S (size (type_map st))).
Proof.
  split; [|split].
  - intros interface st t st' H.
    destruct (from_interface_footprint _ _ _ _ H) as (Hframe & Hcount).
    split; [exact Hframe|]. split; [exact Hcount|]. intros Hwell.
    pose proof (from_interface_exact _ _ _ _ Hwell H) as Hexact.
    pose proof (new_entries_bound _ _ _ Hframe).
    unfold one_object_per_entry in Hexact. split; lia.
  - intros object_type td st t st' Htd H.
    assert (Hfootprint :
              (forall n, n ∉ all_names td -> type_map st' !! n = type_map st !! n) /\
              allocated st' <= allocated st + length (all_names td) /\
              (well_named td = true -> one_object_per_entry st st')).
    { rewrite all_names_eq, well_named_eq.
      apply from_object_type_inv in H
        as (td' & Htd' & [(ct & _ & _ & _ & ->)|(Hmiss & ifs & st1 & Hifs & _ & ->)]).
      { split; [reflexivity|]. split; [lia | reflexivity]. }
      assert (td' = td) as -> by congruence.
      assert (Hall : Forall (fun interface => forall st t st',
                               from_interface interface st = Returns t st' ->
                               (forall n, n ∉ all_names interface ->
                                          type_map st' !! n = type_map st !! n) /\
                               allocated st' <=
                                 allocated st + length (all_names interface))
                            (td_interfaces td)).
      { apply Forall_forall. intros i _. apply from_interface_footprint. }
      destruct (from_interfaces_footprint _ Hall _ _ _ Hifs) as (Hframe & Hcount).
      fold (interface_names td) in Hframe, Hcount. simpl.
      split; [|split; [lia|]].
      - intros n Hn. rewrite lookup_insert_ne by set_solver.
        apply Hframe. set_solver.
      - intros Hwell. apply andb_true_iff in Hwell as [Hname Hwell].
        apply bool_decide_eq_true in Hname.
        assert (Hexact : one_object_per_entry st st1).
        { refine (from_interfaces_exact _ _ Hwell _ _ _ Hifs).
          apply Forall_forall. intros i _. apply from_interface_exact. }
        unfold one_object_per_entry in *. simpl.
        rewrite map_size_insert_None; [lia|].
        rewrite (Hframe _ Hname). exact Hmiss. }
    destruct Hfootprint as (Hframe & Hcount & Hexact).
    split; [exact Hframe|]. split; [exact Hcount|]. intros Hwell.
    specialize (Hexact Hwell). pose proof (new_entries_bound _ _ _ Hframe).
    unfold one_object_per_entry in Hexact. split; lia.
  - intros object_type td interface st Htd Hifs Hnone Hname Hmiss.
    assert (Hinterface : mapM from_interface (td_interfaces td) st =
              Returns [GraphQLInterfaceType (allocated st) (td_name interface)
                         (get_graphql_fields interface) [] (td_description interface)]
                {| type_map :=
                     <[td_name interface :=
                         {| definition := OfTypeDefinition interface;
                            implementation :=
                              GraphQLInterfaceType (allocated st) (td_name interface)
                                (get_graphql_fields interface) []
                                (td_description interface) |}]> (type_map st);
                   allocated := S (allocated st) |}).
    { rewrite Hifs, mapM_cons.
      rewrite (bind_of_Returns _ _ _ _ _
                 (from_interface_miss interface st [] st
                    ltac:(rewrite Hname; exact Hmiss)
                    ltac:(rewrite Hnone; reflexivity))).
      reflexivity. }
    eexists _, _. split; [exact (from_object_type_miss _ _ _ _ _ Htd Hmiss Hinterface)|].
    split; [reflexivity|]. simpl. split; [lia|].
    rewrite Hname, insert_insert_eq. apply map_size_insert_None, Hmiss.
Qed.

(** ** Dictionaries *)

Lemma dict_get_dict_set {K V} `{EqDecision K} (k k' : K) (v : V) (d : dict K V) :
  dict_get k (dict_set k' v d) = if decide (k = k') then Some v else dict_get k d.
Proof.
  induction d as [|[k0 v0] d IH]; simpl.
  - destruct (decide (k = k')); reflexivity.
  - destruct (decide (k' = k0)) as [->|Hne]; simpl.
    + destruct (decide (k = k0)); reflexivity.
    + destruct (decide (k = k0)) as [->|Hne'].
      * destruct (decide (k0 = k')); [congruence | reflexivity].
      * exact IH.
Qed.

Lemma dict_set_keys {K V} `{EqDecision K} (k k' : K) (v : V) (d : dict K V) :
  k ∈ (dict_set k' v d).*1 <-> k = k' \/ k ∈ d.*1.
Proof.
  induction d as [|[k0 v0] d IH]; simpl.
  - set_solver.
  - destruct (decide (k' = k0)) as [->|Hne]; simpl; set_solver.
Qed.

Lemma dict_set_NoDup {K V} `{EqDecision K} (k : K) (v : V) (d : dict K V) :
  NoDup d.*1 -> NoDup (dict_set k v d).*1.
Proof.
  induction d as [|[k0 v0] d IH]; simpl; intros Hd.
  - apply NoDup_singleton.
  - apply NoDup_cons in Hd as [Hk0 Hd].
    destruct (decide (k = k0)) as [->|Hne]; simpl; apply NoDup_cons.
    + split; assumption.
    + split; [|exact (IH Hd)]. rewrite dict_set_keys.
      intros [?|?]; [congruence | contradiction].
Qed.

Lemma dict_fold_spec {K V} `{EqDecision K} (kvs : list (K * V)) : forall d : dict K V,
  let d' := fold_left (fun d kv => dict_set kv.1 kv.2 d) kvs d in
  (NoDup d.*1 -> NoDup d'.*1) /\
  (forall k, k ∈ d'.*1 <-> k ∈ d.*1 \/ k ∈ kvs.*1) /\
  (forall k, dict_get k d' =
             match last_value k kvs with Some v => Some v | None => dict_get k d end).
Proof.
  induction kvs as [|[k0 v0] kvs IH]; intros d; simpl.
  - split; [auto|]. split; [set_solver | reflexivity].
  - destruct (IH (dict_set k0 v0 d)) as (Hnodup & Hkeys & Hget).
    split; [|split].
    + intros Hd. apply Hnodup, dict_set_NoDup, Hd.
    + intros k. rewrite Hkeys, dict_set_keys. set_solver.
    + intros k. rewrite Hget, dict_get_dict_set.
      destruct (last_value k kvs); [reflexivity|].
      destruct (decide (k = k0)); reflexivity.
Qed.

Lemma dict_of_pairs_spec {K V} `{EqDecision K} (kvs : list (K * V)) :
  NoDup (dict_of_pairs kvs).*1 /\
  (forall k, k ∈ (dict_of_pairs kvs).*1 <-> k ∈ kvs.*1) /\
  (forall k, dict_get k (dict_of_pairs kvs) = last_value k kvs).
Proof.
  destruct (dict_fold_spec kvs []) as (Hnodup & Hkeys & Hget).
  unfold dict_of_pairs. split; [|split].
  - apply Hnodup. constructor.
  - intros k. rewrite Hkeys. set_solver.
  - intros k. rewrite Hget. destruct (last_value k kvs); reflexivity.
Qed.

Lemma last_value_unique {K V} `{EqDecision K} (kvs : list (K * V)) k v :
  NoDup kvs.*1 -> (k, v) ∈ kvs -> last_value k kvs = Some v.
Proof.
  induction kvs as [|[k0 v0] kvs IH]; simpl; intros Hnodup Hin.
  - set_solver.
  - apply NoDup_cons in Hnodup as [Hk0 Hnodup].
    apply elem_of_cons in Hin as [[= -> ->]|Hin].
    + destruct (last_value k0 kvs) as [v'|] eqn:Hlast.
      * exfalso. apply Hk0.
        destruct (dict_of_pairs_spec kvs) as (_ & Hkeys & Hget).
        apply Hkeys. rewrite <- Hget in Hlast.
        clear -Hlast. induction (dict_of_pairs kvs) as [|[k1 v1] d IHd]; simpl in *;
          [discriminate|].
        destruct (decide (k0 = k1)); set_solver.
      * destruct (decide (k0 = k0)); [reflexivity | congruence].
    + rewrite (IH Hnodup Hin). reflexivity.
Qed.

(** ** Enum types: [from_enum] *)

(** [from_enum] on an enum that is not in the cache.  Without a name the
    enum fails the first assertion, whatever the cache holds.  With a name
    that is not the empty string (which the constructor of [GraphQLEnumType]
    refuses) the enum type is created and entered in the cache with its
    definition; its values have one key per value name, and a name that
    occurs more than once keeps the value of its last occurrence.  When the
    value names are all different, every value is found under its name. *)
Theorem from_enum_values enum :
  (enum_name enum = None -> forall st, from_enum enum st = Raises AssertionError) /\
  (forall name st,
      enum_name enum = Some name ->
      name <> String.EmptyString ->
      type_map st !! name = None ->
      exists values,
        let graphql_enum :=
          GraphQLEnumType (allocated st) name values (enum_description enum) in
        from_enum enum st =
        Returns graphql_enum
          {| type_map := <[name := {| definition := OfEnumDefinition enum;
                                      implementation := graphql_enum |}]> (type_map st);
             allocated := S (allocated st) |} /\
        NoDup values.*1 /\
        (forall n, n ∈ values.*1 <-> n ∈ ev_name <$> enum_values enum) /\
        (forall n, dict_get n values =
                   last_value n (map (fun item => (ev_name item, ev_value item))
                                     (enum_values enum))) /\
        (NoDup (ev_name <$> enum_values enum) ->
         forall item, item ∈ enum_values enum ->
                      dict_get (ev_name item) values = Some (ev_value item))).
Proof.
  split.
  - intros Hname st. unfold from_enum. rewrite Hname. reflexivity.
  - intros name st Hname _ Hmiss.
    set (pairs := map (fun item => (ev_name item, from_enum_value item))
                      (enum_values enum)).
    assert (Hfst : pairs.*1 = ev_name <$> enum_values enum).
    { unfold pairs. rewrite <- list_fmap_compose. reflexivity. }
    destruct (dict_of_pairs_spec pairs) as (Hnodup & Hkeys & Hget).
    exists (dict_of_pairs pairs). split; [|split; [|split; [|split]]].
    + unfold from_enum. rewrite Hname. unfold assert_is_not_None.
      unfold bind at 1. unfold ret at 1. unfold bind at 1. unfold type_map_get.
      rewrite Hmiss. reflexivity.
    + exact Hnodup.
    + intros n. rewrite Hkeys, Hfst. reflexivity.
    + exact Hget.
    + intros Hnames item Hitem. rewrite Hget.
      apply last_value_unique; [rewrite Hfst; exact Hnames|].
      unfold pairs. apply list_elem_of_fmap.
      exists item. split; [reflexivity | exact Hitem].
Qed.

(** ** Arguments by name: [from_directive] and [from_field] *)


Lemma mapM_keys {A B C} (g : A -> M B) (h : A -> C) xs : forall st pairs st',
  mapM (fun x => y <- g x ;; ret (h x, y)) xs st = Returns pairs st' ->
  pairs.*1 = h <$> xs.
Proof.
  induction xs as [|x xs IH]; intros st pairs st' H.
  - simpl in H. unfold ret in H. injection H as <- _. reflexivity.
  - rewrite mapM_cons in H. returns_inv H. returns_inv H0.
    simpl. f_equal. exact (IH _ _ _ H1).
Qed.






(** ** Field names: the two closures and the input builder *)

Lemma interface_fields_spec fuel fields : forall acc st d st',
  foldM (fun graphql_fields field =>
           name <- assert_is_not_None (fd_name field) ;;
           graphql_field <- from_field fuel field ;;
           ret (dict_set (Some name) graphql_field graphql_fields))
        fields acc st = Returns d st' ->
  (NoDup acc.*1 -> NoDup d.*1) /\
  (forall k, k ∈ d.*1 <-> k ∈ acc.*1 \/ k ∈ fd_name <$> fields) /\
  Forall (fun field => is_Some (fd_name field)) fields.
Proof.
  induction fields as [|field fields IH]; intros acc st d st' H.
  - simpl in H. unfold ret in H. injection H as <- _.
    split; [auto|]. split; [set_solver | constructor].
  - rewrite foldM_cons in H. apply bind_Returns in H as (acc' & st1 & Hstep & H).
    returns_inv Hstep. rename H0 into Hname.
    destruct (IH _ _ _ _ H) as (Hnodup & Hkeys & Hnames).
    split; [|split].
    + intros Hacc. apply Hnodup, dict_set_NoDup, Hacc.
    + intros k. rewrite Hkeys, dict_set_keys, fmap_cons, Hname. set_solver.
    + constructor; [rewrite Hname; eauto | exact Hnames].
Qed.

(** The keys of the field maps.  The closure of an object type and the input
    builder enter each field under its name as it is, [None] included, one
    key per name.  The closure of an interface type asserts that each field
    has a name: its keys are the names, and a first field without a name
    makes the call fail on the assertion, at any call depth and before the
    field is converted. *)
Theorem field_map_keys :
  (forall fuel type_definition st fields st',
      call_thunk fuel (object_fields type_definition) st = Returns fields st' ->
      NoDup fields.*1 /\
      (forall k, k ∈ fields.*1 <-> k ∈ fd_name <$> td_fields type_definition)) /\
  (forall fuel interface st fields st',
      call_thunk fuel (get_graphql_fields interface) st = Returns fields st' ->
      NoDup fields.*1 /\
      (forall k, k ∈ fields.*1 <-> k ∈ fd_name <$> td_fields interface) /\
      Forall (fun field => is_Some (fd_name field)) (td_fields interface)) /\
  (forall fuel interface field rest st,
      td_fields interface = field :: rest ->
      fd_name field = None ->
      call_thunk fuel (get_graphql_fields interface) st = Raises AssertionError) /\
  (forall fuel object_type type_definition st t st',
      _type_definition (obj object_type) = Some type_definition ->
      from_input_object_type fuel object_type st = Returns t st' ->
      exists id fields,
        t = GraphQLInputObjectType id (td_name type_definition) fields
              (td_description type_definition) /\
        NoDup fields.*1 /\
        (forall k, k ∈ fields.*1 <-> k ∈ fd_name <$> td_fields type_definition)).
Proof.
  split; [|split; [|split]].
  - intros fuel td st fields st' H. unfold call_thunk in H.
    apply bind_Returns in H as (pairs & st1 & Hpairs & H).
    unfold ret in H. injection H as <- <-.
    destruct (dict_of_pairs_spec pairs) as (Hnodup & Hkeys & _).
    split; [exact Hnodup|]. intros k.
    rewrite Hkeys, (mapM_keys _ _ _ _ _ _ Hpairs). reflexivity.
  - intros fuel interface st fields st' H. unfold call_thunk in H.
    destruct (interface_fields_spec _ _ _ _ _ _ H) as (Hnodup & Hkeys & Hnames).
    split; [apply Hnodup; constructor|]. split; [|exact Hnames].
    intros k. rewrite Hkeys. set_solver.
  - intros fuel interface field rest st Hfields Hname. unfold call_thunk.
    rewrite Hfields, foldM_cons. apply bind_of_Raises, bind_of_Raises.
    rewrite Hname. reflexivity.
  - intros fuel object_type td st t st' Htd H.
    destruct fuel as [|fuel]; [discriminate|]. simpl in H. rewrite Htd in H.
    destruct (negb (td_is_input td)); [discriminate|].
    apply bind_Returns in H as (pairs & st1 & Hpairs & H).
    unfold new in H. injection H as <- <-.
    destruct (dict_of_pairs_spec pairs) as (Hnodup & Hkeys & _).
    eexists _, _. split; [reflexivity|]. split; [exact Hnodup|]. intros k.
    rewrite Hkeys, (mapM_keys _ _ _ _ _ _ Hpairs). reflexivity.
Qed.

(** ** What the dispatcher returns *)

(** [get_graphql_type] routes on what the object has, in this order: a type
    definition (input before interface before object), an enum definition,
    being a scalar.  The type it returns is of the kind it routed to; an
    input object type carries the name and description of its definition. *)
Theorem dispatch_by_kind fuel type_ st t st' :
  get_graphql_type fuel type_ st = Returns t st' ->
  match _type_definition (obj type_), _enum_definition (obj type_) with
  | Some type_definition, _ =>
      if td_is_input type_definition then
        exists id fields,
          t = GraphQLInputObjectType id (td_name type_definition) fields
                (td_description type_definition)
      else if td_is_interface type_definition then
        isinstance_GraphQLInterfaceType t = true
      else isinstance_GraphQLObjectType t = true
  | None, Some _ => isinstance_GraphQLEnumType t = true
  | None, None => is_scalar type_ = true /\ get_scalar_type type_ st = (t, st')
  end.
Proof.
  destruct fuel as [|fuel]; [discriminate|]. simpl.
  destruct (_type_definition (obj type_)) as [td|] eqn:Htd.
  - destruct (td_is_input td) eqn:Hin.
    + intros H. destruct fuel as [|fuel]; [discriminate|].
      rewrite (from_input_object_type_S _ _ _ _ Htd Hin) in H.
      apply bind_Returns in H as (fields & st1 & _ & H).
      unfold new in H. injection H as <- <-. eauto.
    + destruct (td_is_interface td).
      * intros H. apply from_interface_cached in H as (ct & _ & _ & Hinst).
        exact Hinst.
      * intros H. apply from_object_type_cached in H as (? & ? & _ & _ & _ & Hinst).
        exact Hinst.
  - destruct (_enum_definition (obj type_)) as [ed|].
    + intros H. apply from_enum_cached in H as (? & ? & _ & _ & _ & Hinst).
      exact Hinst.
    + unfold _is_scalar. destruct (is_scalar type_); [|discriminate].
      unfold from_scalar. destruct (get_scalar_type type_ st) as [t0 st0].
      intros [= <- <-]. auto.
Qed.

Section nullability.

(** What the scalar registry returns is a scalar type. *)
Hypothesis get_scalar_type_scalar :
  forall scalar st, isinstance_GraphQLScalarType (get_scalar_type scalar st).1 = true.

Lemma get_graphql_type_nullable fuel type_ st t st' :
  get_graphql_type fuel type_ st = Returns t st' ->
  isinstance_GraphQLNonNull t = false.
Proof.
  destruct fuel as [|fuel]; [discriminate|]. simpl.
  destruct (_type_definition (obj type_)) as [td|] eqn:Htd.
  - destruct (td_is_input td) eqn:Hin.
    + intros H. destruct fuel as [|fuel]; [discriminate|].
      rewrite (from_input_object_type_S _ _ _ _ Htd Hin) in H.
      apply bind_Returns in H as (fields & st1 & _ & H).
      unfold new in H. injection H as <- <-. reflexivity.
    + destruct (td_is_interface td).
      * intros H. apply from_interface_cached in H as (ct & _ & _ & Hinst).
        destruct t; try discriminate; reflexivity.
      * intros H. apply from_object_type_cached in H as (? & ? & _ & _ & _ & Hinst).
        destruct t; try discriminate; reflexivity.
  - destruct (_enum_definition (obj type_)) as [ed|].
    + intros H. apply from_enum_cached in H as (? & ? & _ & _ & _ & Hinst).
      destruct t; try discriminate; reflexivity.
    + destruct (_is_scalar type_); [|discriminate].
      unfold from_scalar. pose proof (get_scalar_type_scalar type_ st) as Hs.
      destruct (get_scalar_type type_ st) as [t0 st0]. intros [= <- <-].
      simpl in Hs. destruct t0; try discriminate; reflexivity.
Qed.

(** The type the dispatcher returns for a field or argument is a
    [GraphQLNonNull] exactly when the reference is not optional, and what
    [GraphQLNonNull] wraps is never a [GraphQLNonNull] itself.  (The scalar
    registry is taken to return scalar types.) *)
Theorem non_null_iff_required fuel field st t st' :
  get_graphql_type_field fuel field st = Returns t st' ->
  isinstance_GraphQLNonNull t = negb (_is_optional field) /\
  forall of_type, t = GraphQLNonNull of_type ->
                  isinstance_GraphQLNonNull of_type = false.
Proof.
  destruct fuel as [|fuel]; [discriminate|].
  rewrite get_graphql_type_field_S. intros H.
  apply bind_Returns in H as (inner & st1 & Hinner & H).
  unfold ret in H. injection H as <- <-.
  assert (Hnullable : isinstance_GraphQLNonNull inner = false).
  { destruct (_is_list field).
    - destruct fuel as [|fuel]; [discriminate|]. rewrite from_list_S in Hinner.
      returns_inv Hinner. reflexivity.
    - unfold innermost_type in Hinner. destruct (_is_union field).
      + returns_inv Hinner.
        apply from_union_cached in Hinner as (ct & _ & _ & Hinst).
        destruct inner; try discriminate; reflexivity.
      + exact (get_graphql_type_nullable _ _ _ _ _ Hinner). }
  unfold non_null_unless_optional. destruct (_is_optional field); simpl.
  - split; [exact Hnullable|]. intros of_type ->. discriminate.
  - split; [reflexivity|]. intros of_type [= <-]. exact Hnullable.
Qed.

End nullability.

(** ** References whose flags and contents disagree *)

(** What [get_graphql_type_field] does with a reference whose flags do not
    fit what it holds.  A list without a child fails the assertion of
    [from_list].  A reference flagged as a union whose type is not a
    [StrawberryUnion] fails the assertion, even when the type is one the
    dispatcher could convert.  The list flag is looked at first: for a list,
    the union flag and the type of the reference itself play no part. *)
Theorem inconsistent_reference_flags :
  (forall fuel field st,
      _is_list field = true ->
      fa_child field = None ->
      get_graphql_type_field (S (S fuel)) field st = Raises AssertionError) /\
  (forall fuel field st,
      _is_list field = false ->
      _is_union field = true ->
      as_StrawberryUnion (obj (fa_type field)) = None ->
      get_graphql_type_field (S fuel) field st = Raises AssertionError) /\
  (forall fuel field field' st,
      _is_list field = true ->
      _is_list field' = true ->
      fa_child field' = fa_child field ->
      _is_optional field' = _is_optional field ->
      get_graphql_type_field fuel field' st = get_graphql_type_field fuel field st).
Proof.
  split; [|split].
  - intros fuel field st Hlist Hchild.
    rewrite get_graphql_type_field_S. apply bind_of_Raises.
    rewrite Hlist, from_list_S. apply bind_of_Raises. rewrite Hchild. reflexivity.
  - intros fuel field st Hlist Hunion Hnot.
    rewrite get_graphql_type_field_S. apply bind_of_Raises.
    rewrite Hlist. unfold innermost_type. rewrite Hunion.
    apply bind_of_Raises. rewrite Hnot. reflexivity.
  - intros fuel field field' st Hlist Hlist' Hchild Hopt.
    destruct fuel as [|fuel]; [reflexivity|].
    rewrite !get_graphql_type_field_S. unfold non_null_unless_optional, bind.
    rewrite Hlist, Hlist', Hopt.
    destruct fuel as [|fuel]; [reflexivity|].
    rewrite !from_list_S. unfold bind. rewrite Hchild. reflexivity.
Qed.

(** ** The call depth *)

Lemma extends_refl {A} (m : M A) : extends m m.
Proof. intros st _. reflexivity. Qed.

Lemma extends_bind {A B} (m' m : M A) (k' k : A -> M B) :
  extends m' m -> (forall a, extends (k' a) (k a)) ->
  extends (bind m' k') (bind m k).
Proof.
  intros Hm Hk st Hs. unfold bind in *.
  destruct (m st) as [a st1|e] eqn:Hmst.
  - rewrite (Hm st) by (rewrite Hmst; discriminate). rewrite Hmst.
    apply Hk, Hs.
  - rewrite (Hm st) by (rewrite Hmst; intros [= ->]; apply Hs; reflexivity).
    rewrite Hmst. reflexivity.
Qed.

Lemma extends_mapM {A B} (f' f : A -> M B) xs :
  (forall x, extends (f' x) (f x)) -> extends (mapM f' xs) (mapM f xs).
Proof.
  intros Hf. induction xs as [|x xs IH].
  - apply extends_refl.
  - rewrite !mapM_cons. apply extends_bind; [apply Hf|]. intros y.
    apply extends_bind; [exact IH|]. intros ys. apply extends_refl.
Qed.

Lemma extends_foldM {A B} (f' f : B -> A -> M B) xs :
  (forall acc x, extends (f' acc x) (f acc x)) ->
  forall acc, extends (foldM f' xs acc) (foldM f xs acc).
Proof.
  intros Hf. induction xs as [|x xs IH]; intros acc.
  - apply extends_refl.
  - rewrite !foldM_cons. apply extends_bind; [apply Hf | exact IH].
Qed.

Lemma extends_trans {A} (m2 m1 m : M A) :
  extends m2 m1 -> extends m1 m -> extends m2 m.
Proof.
  intros H21 H1 st Hs. rewrite <- (H1 st Hs). apply H21.
  unfold settled. rewrite (H1 st Hs). exact Hs.
Qed.

Ltac extends_step :=
  lazymatch goal with
  | |- extends (bind _ _) (bind _ _) => apply extends_bind; [|intros ?]
  | |- extends (mapM _ _) (mapM _ _) => apply extends_mapM; intros ?
  | |- extends (foldM _ _ _) (foldM _ _ _) => apply extends_foldM; intros ? ?
  | |- extends (if ?c then _ else _) (if ?c then _ else _) => destruct c
  | |- extends (match ?x with _ => _ end) (match ?x with _ => _ end) => destruct x
  | |- extends ?m ?m => apply extends_refl
  end.

Lemma get_graphql_type_field_eq fuel field :
  get_graphql_type_field (S fuel) field =
  (graphql_type <-
     (if _is_list field then from_list fuel field
      else if _is_union field then
        union <- assert_is_not_None (as_StrawberryUnion (obj (fa_type field))) ;;
        from_union fuel union
      else get_graphql_type fuel (fa_type field)) ;;
   if negb (_is_optional field)
   then ret (GraphQLNonNull graphql_type)
   else ret graphql_type).
Proof. reflexivity. Qed.

Lemma get_graphql_type_eq fuel type_ :
  get_graphql_type (S fuel) type_ =
  match _type_definition (obj type_) with
  | Some type_definition =>
      if td_is_input type_definition then from_input_object_type fuel type_
      else if td_is_interface type_definition then from_interface type_definition
      else from_object_type type_
  | None =>
      match _enum_definition (obj type_) with
      | Some enum_definition => from_enum enum_definition
      | None =>
          if _is_scalar type_ then from_scalar type_
          else raise (TypeError (Unexpected_type type_))
      end
  end.
Proof. reflexivity. Qed.

Lemma from_list_eq fuel list_ :
  from_list (S fuel) list_ =
  (child <- assert_is_not_None (fa_child list_) ;;
   of_type <- get_graphql_type_field fuel child ;;
   ret (GraphQLList of_type)).
Proof. reflexivity. Qed.

Lemma from_union_eq fuel union :
  from_union (S fuel) union =
  (cached <- type_map_get (union_name union) ;;
   match cached with
   | Some concrete_type =>
       assert (isinstance_GraphQLUnionType (implementation concrete_type)) ;;;
       ret (implementation concrete_type)
   | None =>
       graphql_types <- mapM (union_member fuel) (union_types union) ;;
       graphql_union <- new (fun id =>
         GraphQLUnionType id (union_name union) graphql_types
           (union_description union) (get_type_resolver union self_type_map)) ;;
       type_map_set (union_name union)
         {| definition := OfStrawberryUnion union;
            implementation := graphql_union |} ;;;
       ret graphql_union
   end).
Proof. reflexivity. Qed.

Lemma from_input_object_type_eq fuel object_type :
  from_input_object_type (S fuel) object_type =
  match _type_definition (obj object_type) with
  | None => raise (TypeError (Wrong_type_passed_to_get_object_type object_type))
  | Some type_definition =>
      if negb (td_is_input type_definition)
      then raise (TypeError (is_not_an_input_type object_type))
      else
        fields <- mapM (fun field =>
                          input_field <- from_input_field fuel field ;;
                          ret (fd_name field, input_field))
                       (td_fields type_definition) ;;
        new (fun id =>
          GraphQLInputObjectType id (td_name type_definition)
            (dict_of_pairs fields) (td_description type_definition))
  end.
Proof. reflexivity. Qed.

Lemma from_input_field_eq fuel field :
  from_input_field (S fuel) field =
  (field_type <- get_graphql_type_field fuel (Field field) ;;
   ret (mkGraphQLInputField field_type
          (if py_in (fd_default_value field) [undefined; UNSET] then Undefined
           else fd_default_value field)
          (fd_description field))).
Proof. reflexivity. Qed.

Lemma one_more_call fuel :
  (forall field, extends (get_graphql_type_field (S fuel) field)
                         (get_graphql_type_field fuel field)) /\
  (forall type_, extends (get_graphql_type (S fuel) type_)
                         (get_graphql_type fuel type_)) /\
  (forall list_, extends (from_list (S fuel) list_) (from_list fuel list_)) /\
  (forall union, extends (from_union (S fuel) union) (from_union fuel union)) /\
  (forall object_type, extends (from_input_object_type (S fuel) object_type)
                               (from_input_object_type fuel object_type)) /\
  (forall field, extends (from_input_field (S fuel) field)
                         (from_input_field fuel field)).
Proof.
  induction fuel as [|fuel (IHfield & IHtype & IHlist & IHunion & IHinput & IHif)].
  { repeat split; intros x st Hs; exfalso; apply Hs; reflexivity. }
  repeat split.
  - intros field.
    rewrite (get_graphql_type_field_eq (S fuel)), (get_graphql_type_field_eq fuel).
    repeat extends_step; auto.
  - intros type_.
    rewrite (get_graphql_type_eq (S fuel)), (get_graphql_type_eq fuel).
    repeat extends_step; auto.
  - intros list_. rewrite (from_list_eq (S fuel)), (from_list_eq fuel).
    repeat extends_step; auto.
  - intros union. rewrite (from_union_eq (S fuel)), (from_union_eq fuel).
    repeat extends_step. unfold union_member. repeat extends_step; auto.
  - intros object_type.
    rewrite (from_input_object_type_eq (S fuel)), (from_input_object_type_eq fuel).
    repeat extends_step; auto.
  - intros field. rewrite (from_input_field_eq (S fuel)), (from_input_field_eq fuel).
    repeat extends_step; auto.
Qed.

Lemma deeper_calls fuel fuel' :
  fuel <= fuel' ->
  (forall field, extends (get_graphql_type_field fuel' field)
                         (get_graphql_type_field fuel field)) /\
  (forall type_, extends (get_graphql_type fuel' type_) (get_graphql_type fuel type_)) /\
  (forall union, extends (from_union fuel' union) (from_union fuel union)) /\
  (forall object_type, extends (from_input_object_type fuel' object_type)
                               (from_input_object_type fuel object_type)).
Proof.
  induction 1 as [|fuel' _ (IHfield & IHtype & IHunion & IHinput)].
  - repeat split; intros; apply extends_refl.
  - destruct (one_more_call fuel') as (Hfield & Htype & _ & Hunion & Hinput & _).
    repeat split; intros x; eapply extends_trans; eauto.
Qed.

(** The call depth only decides whether a conversion can finish.  A
    conversion that ends within some depth without hitting the recursion
    limit, by returning or by raising another exception, ends in the same way,
    with the same result and the same state, at every greater depth. *)
Theorem result_independent_of_depth fuel fuel' :
  fuel <= fuel' ->
  (forall field, extends (get_graphql_type_field fuel' field)
                         (get_graphql_type_field fuel field)) /\
  (forall type_, extends (get_graphql_type fuel' type_) (get_graphql_type fuel type_)) /\
  (forall union, extends (from_union fuel' union) (from_union fuel union)) /\
  (forall object_type, extends (from_input_object_type fuel' object_type)
                               (from_input_object_type fuel object_type)) /\
  (forall argument, extends (from_argument fuel' argument) (from_argument fuel argument)) /\
  (forall directive, extends (from_directive fuel' directive)
                             (from_directive fuel directive)) /\
  (forall field, extends (from_field fuel' field) (from_field fuel field)) /\
  (forall thunk, extends (call_thunk fuel' thunk) (call_thunk fuel thunk)).
Proof.
  intros Hle. destruct (deeper_calls _ _ Hle) as (Hfield & Htype & Hunion & Hinput).
  assert (Hargument : forall argument,
             extends (from_argument fuel' argument) (from_argument fuel argument)).
  { intros argument. unfold from_argument. repeat extends_step; auto. }
  assert (Harguments : forall arguments,
             extends (from_arguments fuel' arguments) (from_arguments fuel arguments)).
  { intros arguments. unfold from_arguments. repeat extends_step; auto. }
  assert (Hff : forall field, extends (from_field fuel' field) (from_field fuel field)).
  { intros field. unfold from_field. apply extends_bind; [apply Hfield|].
    intros t. destruct (fd_is_subscription field); repeat extends_step; auto. }
  repeat split; auto.
  - intros directive. unfold from_directive. repeat extends_step; auto.
  - intros [td|td]; unfold call_thunk; repeat extends_step; auto.
Qed.

(** ** One more look-up *)

Lemma from_enum_idempotent enum st t st' :
  from_enum enum st = Returns t st' -> from_enum enum st' = Returns t st'.
Proof.
  intros H.
  apply from_enum_cached in H as (name & ct & Hname & Hhit & <- & Hinst).
  unfold from_enum. rewrite Hname. unfold assert_is_not_None.
  unfold bind at 1. unfold ret at 1. unfold bind at 1. unfold type_map_get.
  rewrite Hhit. unfold bind, assert. rewrite Hinst. reflexivity.
Qed.
(** ** One instance per name *)

Lemma from_interfaces_cached interfaces : forall st ts st',
  mapM from_interface interfaces st = Returns ts st' ->
  Forall2 (fun interface t =>
             exists ct, type_map st' !! td_name interface = Some ct /\
                        implementation ct = t)
          interfaces ts.
Proof.
  induction interfaces as [|interface interfaces IH]; intros st ts st' H.
  - simpl in H. unfold ret in H. injection H as <- _. constructor.
  - rewrite mapM_cons in H. returns_inv H. constructor; [|exact (IH _ _ _ H1)].
    apply from_interface_cached in H0 as (ct & Hhit & Himpl & _).
    exists ct. split; [|exact Himpl].
    eapply lookup_weaken; [exact Hhit|].
    refine (keeps_cache_mapM _ _ _ _ _ _ H1).
    apply Forall_forall. intros i _. apply keeps_cache_from_interface.
Qed.

(** The interfaces listed in a type that has just been built are the
    instances the cache holds: for an object or interface type that was not
    in the cache and whose name is not the name of one of the interfaces it
    implements, each interface in its list is the implementation entered
    under that interface's name. *)
Theorem interfaces_are_the_cached_instances :
  (forall object_type type_definition st t st',
      _type_definition (obj object_type) = Some type_definition ->
      type_map st !! td_name type_definition = None ->
      td_name type_definition ∉ td_name <$> td_interfaces type_definition ->
      from_object_type object_type st = Returns t st' ->
      Forall2 (fun interface graphql_interface =>
                 exists ct, type_map st' !! td_name interface = Some ct /\
                            implementation ct = graphql_interface)
              (td_interfaces type_definition) (interfaces_of t)) /\
  (forall interface st t st',
      type_map st !! td_name interface = None ->
      td_name interface ∉ td_name <$> td_interfaces interface ->
      from_interface interface st = Returns t st' ->
      Forall2 (fun parent graphql_interface =>
                 exists ct, type_map st' !! td_name parent = Some ct /\
                            implementation ct = graphql_interface)
              (td_interfaces interface) (interfaces_of t)).
Proof.
  assert (Hinsert : forall name ct0 interfaces ts (m : gmap string ConcreteType),
             name ∉ td_name <$> interfaces ->
             Forall2 (fun interface t =>
                        exists ct, m !! td_name interface = Some ct /\
                                   implementation ct = t) interfaces ts ->
             Forall2 (fun interface t =>
                        exists ct, <[name := ct0]> m !! td_name interface = Some ct /\
                                   implementation ct = t) interfaces ts).
  { intros name ct0 interfaces ts m Hname Hall.
    induction Hall as [|i t interfaces ts (ct & Hct & Himpl) _ IH]; constructor.
    - exists ct. split; [|exact Himpl].
      rewrite lookup_insert_ne; [exact Hct | set_solver].
    - apply IH. set_solver. }
  split.
  - intros object_type td st t st' Htd Hmiss Hname H.
    apply from_object_type_inv in H
      as (td' & Htd' & [(ct & Hhit & _)|(_ & ifs & st1 & Hifs & -> & ->)]);
      assert (td' = td) as -> by congruence; [congruence|].
    simpl. apply Hinsert; [exact Hname|]. exact (from_interfaces_cached _ _ _ _ Hifs).
  - intros interface st t st' Hmiss Hname H.
    apply from_interface_inv in H
      as [(ct & Hhit & _)|(_ & ifs & st1 & Hifs & -> & ->)]; [congruence|].
    simpl. apply Hinsert; [exact Hname|]. exact (from_interfaces_cached _ _ _ _ Hifs).
Qed.

Lemma get_graphql_type_cached_kind fuel type_ st t st' :
  cached_kind (obj type_) ->
  get_graphql_type fuel type_ st = Returns t st' ->
  named_type t = t /\
  forall fuel', get_graphql_type (S fuel') type_ st' = Returns t st'.
Proof.
  unfold cached_kind. intros Hkind H.
  destruct fuel as [|fuel]; [discriminate|].
  rewrite get_graphql_type_eq in H.
  destruct (_type_definition (obj type_)) as [td|] eqn:Htd.
  - rewrite Hkind in H. destruct (td_is_interface td) eqn:Hif.
    + split.
      * apply from_interface_cached in H as (? & _ & _ & Hinst).
        destruct t; try discriminate; reflexivity.
      * intros fuel'. rewrite get_graphql_type_eq, Htd, Hkind, Hif.
        apply from_interface_cached in H as (ct & Hhit & <- & Hinst).
        exact (from_interface_hit _ _ _ Hhit Hinst).
    + split.
      * apply from_object_type_cached in H as (? & ? & _ & _ & _ & Hinst).
        destruct t; try discriminate; reflexivity.
      * intros fuel'. rewrite get_graphql_type_eq, Htd, Hkind, Hif.
        exact (from_object_type_idempotent _ _ _ _ H).
  - destruct Hkind as [ed Hed]. rewrite Hed in H. split.
    + apply from_enum_cached in H as (? & ? & _ & _ & _ & Hinst).
      destruct t; try discriminate; reflexivity.
    + intros fuel'. rewrite get_graphql_type_eq, Htd, Hed.
      exact (from_enum_idempotent _ _ _ _ H).
Qed.

(** Two references to one class.  When the class is an object type, an
    interface or an enum, two plain references to it, on fields or on
    arguments, required or optional, get the same instance as their named
    type, and the second conversion changes nothing. *)
Theorem two_references_one_instance fuel fuel' reference1 reference2 st t1 st1 t2 st2 :
  cached_kind (obj (fa_type reference1)) ->
  fa_type reference2 = fa_type reference1 ->
  _is_list reference1 = false -> _is_union reference1 = false ->
  _is_list reference2 = false -> _is_union reference2 = false ->
  get_graphql_type_field fuel reference1 st = Returns t1 st1 ->
  get_graphql_type_field fuel' reference2 st1 = Returns t2 st2 ->
  named_type t2 = named_type t1 /\ st2 = st1.
Proof.
  intros Hkind Htype Hlist1 Hunion1 Hlist2 Hunion2 H1 H2.
  destruct fuel as [|fuel]; [discriminate|].
  destruct fuel' as [|fuel']; [discriminate|].
  rewrite get_graphql_type_field_S in H1, H2.
  unfold innermost_type in H1, H2.
  rewrite Hlist1, Hunion1 in H1. rewrite Hlist2, Hunion2, Htype in H2.
  apply bind_Returns in H1 as (inner1 & st1' & Hinner1 & H1).
  unfold ret in H1. injection H1 as <- <-.
  apply bind_Returns in H2 as (inner2 & st2' & Hinner2 & H2).
  unfold ret in H2. injection H2 as <- <-.
  destruct (get_graphql_type_cached_kind _ _ _ _ _ Hkind Hinner1) as (Hnamed & Hagain).
  destruct fuel' as [|fuel']; [discriminate|].
  rewrite Hagain in Hinner2. injection Hinner2 as <- <-.
  split; [|reflexivity].
  unfold non_null_unless_optional.
  destruct (_is_optional reference1), (_is_optional reference2); simpl; congruence.
Qed.

(** ** Sentinels in default values *)

(** strawberry's own sentinel for "no default" never reaches graphql-core:
    the default value of a converted argument or input field is never
    [undefined], and the default value of a converted input field is never
    [UNSET] either. *)
Theorem undefined_does_not_leak fuel st :
  (forall argument graphql_argument st',
      from_argument fuel argument st = Returns graphql_argument st' ->
      ga_default_value graphql_argument <> undefined) /\
  (forall field input_field st',
      from_input_field fuel field st = Returns input_field st' ->
      input_field_default_value input_field <> undefined /\
      input_field_default_value input_field <> UNSET).
Proof.
  split.
  - intros argument ga st' H.
    apply from_argument_Returns in H as (? & _ & ->). simpl.
    destruct (decide (arg_default_value argument = undefined)); [discriminate|].
    assumption.
  - intros field input_field st' H.
    apply from_input_field_Returns in H as (? & ? & _ & _ & ->). simpl.
    destruct (fd_default_value field); simpl; split; discriminate.
Qed.

(** ** Object types that refer to each other *)

Lemma named_type_non_null_unless_optional field t :
  named_type (non_null_unless_optional field t) = named_type t.
Proof. unfold non_null_unless_optional. destruct (_is_optional field); reflexivity. Qed.

Lemma named_type_object t : isinstance_GraphQLObjectType t = true -> named_type t = t.
Proof. destruct t; try discriminate; reflexivity. Qed.

(** What is returned for a reference to a class is what the dispatcher
    returned for the class, under the wrappers. *)
Lemma names_class_resolves type_ reference :
  names_class type_ reference ->
  forall fuel st t st',
    get_graphql_type_field fuel reference st = Returns t st' ->
    exists fuel' t0,
      get_graphql_type fuel' type_ st = Returns t0 st' /\
      named_type t = named_type t0.
Proof.
  induction 1 as [reference Hlist Hunion Htype|reference child Hlist Hchild _ IH];
    intros fuel st t st' H.
  - destruct fuel as [|fuel]; [discriminate|].
    rewrite get_graphql_type_field_S, Hlist in H.
    unfold innermost_type in H. rewrite Hunion, Htype in H.
    apply bind_Returns in H as (t0 & st1 & H0 & Hret).
    unfold ret in Hret. injection Hret as <- <-.
    exists fuel, t0. split; [exact H0 | apply named_type_non_null_unless_optional].
  - destruct fuel as [|fuel]; [discriminate|].
    rewrite get_graphql_type_field_S, Hlist in H.
    apply bind_Returns in H as (t1 & st1 & H1 & Hret).
    unfold ret in Hret. injection Hret as <- <-.
    destruct fuel as [|fuel]; [discriminate|].
    rewrite from_list_S, Hchild in H1. returns_inv H1. injection H as <-.
    destruct (IH _ _ _ _ H0) as (fuel' & t0 & Ht0 & Hnamed).
    exists fuel', t0. split; [exact Ht0|].
    rewrite named_type_non_null_unless_optional. exact Hnamed.
Qed.

(** A reference to a class is converted when the class is, at a call depth
    that allows for its lists. *)
Lemma names_class_converts type_ reference :
  names_class type_ reference ->
  exists fuel0, forall k st t st',
    get_graphql_type (S k) type_ st = Returns t st' ->
    exists r, get_graphql_type_field (fuel0 + k) reference st = Returns r st'.
Proof.
  induction 1
    as [reference Hlist Hunion Htype|reference child Hlist Hchild _ (fuel0 & IH)].
  - exists 2. intros k st t st' H. eexists.
    change (2 + k) with (S (S k)). rewrite get_graphql_type_field_S, Hlist.
    unfold innermost_type. rewrite Hunion, Htype.
    rewrite (bind_of_Returns _ _ _ _ _ H). reflexivity.
  - exists (S (S fuel0)). intros k st t st' H.
    destruct (IH _ _ _ _ H) as (r & Hr). eexists.
    change (S (S fuel0) + k) with (S (S (fuel0 + k))).
    rewrite get_graphql_type_field_S, Hlist.
    assert (Hl : from_list (S (fuel0 + k)) reference st = Returns (GraphQLList r) st').
    { rewrite from_list_S, Hchild. unfold assert_is_not_None.
      unfold bind at 1. unfold ret at 1.
      rewrite (bind_of_Returns _ _ _ _ _ Hr). reflexivity. }
    rewrite (bind_of_Returns _ _ _ _ _ Hl). reflexivity.
Qed.

Lemma Forall2_last_value {V} (P : FieldDefinition -> V -> Prop) fields pairs :
  Forall2 (fun field kv => kv.1 = fd_name field /\ P field kv.2) fields pairs ->
  forall name,
    (last_named fields name = None -> last_value name pairs = None) /\
    (forall field, last_named fields name = Some field ->
                   exists v, last_value name pairs = Some v /\ P field v).
Proof.
  unfold last_named.
  induction 1 as [|field [k v] fields pairs [Hk HP] _ IH]; intros name; simpl.
  - split; [reflexivity | discriminate].
  - simpl in Hk, HP. subst k. destruct (IH name) as (IHnone & IHsome).
    destruct (last_value name (map (fun field => (fd_name field, field)) fields))
      as [field'|].
    + destruct (IHsome _ eq_refl) as (v' & -> & HP').
      split; [discriminate|]. intros ? [= <-]. eauto.
    + rewrite (IHnone eq_refl).
      destruct (decide (name = fd_name field)); [|split; [reflexivity | discriminate]].
      split; [discriminate|]. intros ? [= <-]. eauto.
Qed.

Lemma registered_weaken type_definition t st st' :
  type_map st ⊆ type_map st' ->
  registered type_definition t st -> registered type_definition t st'.
Proof.
  intros Hsub (ct & Hct & Himpl & Hinst). exists ct.
  split; [exact (lookup_weaken _ _ _ _ Hct Hsub) | auto].
Qed.

Lemma registered_agree type_definition t t' st :
  registered type_definition t st -> registered type_definition t' st -> t = t'.
Proof. intros (ct & Hct & <- & _) (ct' & Hct' & <- & _). congruence. Qed.

Section field_maps.

(** The scalar registry, which is handed the cache, leaves its entries as
    they are. *)
Hypothesis get_scalar_type_keeps_cache :
  forall scalar st, type_map st ⊆ type_map (get_scalar_type scalar st).2.

Lemma keeps_cache_from_arguments fuel arguments :
  keeps_cache (from_arguments fuel arguments).
Proof.
  destruct (keeps_cache_dispatcher get_scalar_type_keeps_cache fuel) as (Hfield & _).
  unfold from_arguments. apply keeps_cache_foldM.
  apply Forall_forall. intros argument _ acc.
  unfold from_argument. repeat keeps_cache_step; auto.
Qed.

Lemma built_registry type_definition scalar st :
  built type_definition st -> built type_definition (get_scalar_type scalar st).2.
Proof.
  intros (id & ifs & H). exists id, ifs.
  exact (lookup_weaken _ _ _ _ H (get_scalar_type_keeps_cache scalar st)).
Qed.

Section target.

Variable type_ : PyRef.
Variable target : TypeDefinition.
Hypothesis type_is_target : _type_definition (obj type_) = Some target.
Hypothesis target_is_object : is_object_definition target.

Lemma get_graphql_type_target k st :
  get_graphql_type (S k) type_ st = from_object_type type_ st.
Proof.
  rewrite get_graphql_type_eq, type_is_target.
  destruct target_is_object as [-> ->]. reflexivity.
Qed.

(** Converting a field of the target type leaves the target type in the
    cache, and the field has that instance. *)
Lemma from_field_registered fuel field st graphql_field st' :
  references type_ field ->
  from_field fuel field st = Returns graphql_field st' ->
  type_map st ⊆ type_map st' /\
  registered target (named_type (gf_type graphql_field)) st'.
Proof.
  intros Href H.
  apply from_field_Returns in H as (field_type & st1 & args & Htype & Hargs & ->).
  pose proof (keeps_cache_from_arguments _ _ _ _ _ Hargs) as Hsub.
  destruct (keeps_cache_dispatcher get_scalar_type_keeps_cache fuel) as (Hfield & _).
  split; [etrans; [exact (Hfield _ _ _ _ Htype) | exact Hsub]|].
  apply (registered_weaken _ _ st1); [exact Hsub|].
  destruct (names_class_resolves _ _ Href _ _ _ _ Htype) as (fuel' & t0 & Ht0 & Hnamed).
  destruct fuel' as [|k]; [discriminate|]. rewrite get_graphql_type_target in Ht0.
  apply from_object_type_cached in Ht0 as (td & ct & Htd & Hct & Himpl & Hinst).
  assert (td = target) as -> by congruence.
  exists ct. simpl. rewrite Hnamed, (named_type_object _ Hinst). auto.
Qed.

Lemma from_field_keeps_cache fuel field : keeps_cache (from_field fuel field).
Proof.
  intros st graphql_field st' H.
  apply from_field_Returns in H as (field_type & st1 & args & Htype & Hargs & _).
  destruct (keeps_cache_dispatcher get_scalar_type_keeps_cache fuel) as (Hfield & _).
  etrans; [exact (Hfield _ _ _ _ Htype) | exact (keeps_cache_from_arguments _ _ _ _ _ Hargs)].
Qed.

Lemma fields_registered fuel fields : forall st pairs st',
  mapM (fun field => graphql_field <- from_field fuel field ;;
                     ret (fd_name field, graphql_field)) fields st =
  Returns pairs st' ->
  type_map st ⊆ type_map st' /\
  Forall2 (fun field kv =>
             kv.1 = fd_name field /\
             (references type_ field ->
              registered target (named_type (gf_type kv.2)) st'))
          fields pairs.
Proof.
  induction fields as [|field fields IH]; intros st pairs st' H.
  - simpl in H. unfold ret in H. injection H as <- <-. split; [reflexivity | constructor].
  - rewrite mapM_cons in H.
    apply bind_Returns in H as (kv & st1 & Hkv & H).
    apply bind_Returns in H as (rest & st2 & Hrest & Hret).
    unfold ret in Hret. injection Hret as <- <-.
    apply bind_Returns in Hkv as (graphql_field & st0 & Hgf & Hret).
    unfold ret in Hret. injection Hret as <- <-.
    destruct (IH _ _ _ Hrest) as (Hsub & Hall).
    split; [etrans; [exact (from_field_keeps_cache _ _ _ _ _ Hgf) | exact Hsub]|].
    constructor; [|exact Hall]. split; [reflexivity|]. intros Href. simpl.
    apply (registered_weaken _ _ _ _ Hsub).
    exact (proj2 (from_field_registered _ _ _ _ _ Href Hgf)).
Qed.

(** Calling the closure of an object type: the cache keeps what it had, and
    the fields of the target type have the instance the cache then holds. *)
Lemma call_thunk_resolves fuel source st graphql_fields st' :
  call_thunk fuel (object_fields source) st = Returns graphql_fields st' ->
  type_map st ⊆ type_map st' /\
  (forall t, registered target t st' ->
             resolved_to (td_fields source) graphql_fields type_ t) /\
  (Exists (references type_) (td_fields source) ->
   exists t, registered target t st').
Proof.
  unfold call_thunk. intros H. returns_inv H. rename a into pairs.
  destruct (fields_registered _ _ _ _ _ H0) as (Hsub & Hall).
  split; [exact Hsub|]. split.
  - intros t Ht field Hlast Href.
    destruct (dict_of_pairs_spec pairs) as (_ & _ & Hget).
    destruct (proj2 (Forall2_last_value
                       (fun field graphql_field =>
                          references type_ field ->
                          registered target (named_type (gf_type graphql_field)) st0)
                       _ _ Hall (fd_name field)) _ Hlast)
      as (graphql_field & Hgf & Hreg).
    exists graphql_field. split; [rewrite Hget; exact Hgf|].
    exact (registered_agree _ _ _ _ (Hreg Href) Ht).
  - intros Hex. apply Exists_exists in Hex as (field & Hin & Href).
    apply list_elem_of_lookup in Hin as [i Hi].
    destruct (Forall2_lookup_l _ _ _ _ _ Hall Hi) as (kv & _ & _ & Hreg). eauto.
Qed.

Lemma built_build st :
  built target st ->
  exists t st', from_object_type type_ st = Returns t st' /\ built target st'.
Proof.
  intros Hbuilt. pose proof Hbuilt as (id & ifs & H).
  eexists _, st. split; [|exact Hbuilt].
  exact (from_object_type_hit _ _ _ _ type_is_target H eq_refl).
Qed.

Lemma ready_build st :
  ready target st ->
  exists t st', from_object_type type_ st = Returns t st' /\ ready target st'.
Proof.
  intros [[Hmiss Hat]|Hbuilt].
  - destruct (from_object_type_ok _ _ _ type_is_target Hmiss Hat)
      as (ifs & st1 & _ & H).
    eexists _, _. split; [exact H|]. right. eexists _, _. apply lookup_insert_eq.
  - destruct (built_build _ Hbuilt) as (t & st' & H & Hbuilt').
    exists t, st'. split; [exact H | right; exact Hbuilt'].
Qed.

Lemma ready_registry scalar st :
  registry_apart (all_names target) ->
  ready target st -> ready target (get_scalar_type scalar st).2.
Proof.
  intros Hapart [[Hmiss Hat]|Hbuilt]; [left | right; apply built_registry, Hbuilt].
  rewrite all_names_eq in Hapart. split.
  - rewrite Hapart by set_solver. exact Hmiss.
  - intros n ct Hin Hct. rewrite Hapart in Hct by set_solver. exact (Hat _ _ Hin Hct).
Qed.

(** Fields over the target type and scalars are converted, from any state
    with the property [Q] that conversions of scalars and of the target type
    keep. *)
Section converts.

Variable Q : State -> Prop.
Hypothesis Q_registry : forall scalar st, Q st -> Q (get_scalar_type scalar st).2.
Hypothesis Q_build :
  forall st, Q st -> exists t st', from_object_type type_ st = Returns t st' /\ Q st'.

Lemma reference_converts reference :
  names_class type_ reference ->
  exists fuel0, forall fuel st,
    fuel0 <= fuel -> Q st ->
    exists t st', get_graphql_type_field fuel reference st = Returns t st' /\ Q st'.
Proof.
  intros Href. destruct (names_class_converts _ _ Href) as (fuel0 & Hconv).
  exists fuel0. intros fuel st Hfuel HQ.
  destruct (Q_build _ HQ) as (t & st' & Ht & HQ').
  destruct (Hconv (fuel - fuel0) st t st') as (r & Hr).
  { rewrite get_graphql_type_target. exact Ht. }
  replace (fuel0 + (fuel - fuel0)) with fuel in Hr by lia. eauto.
Qed.

Lemma scalar_reference_converts reference :
  scalar_reference reference ->
  exists fuel0, forall fuel st,
    fuel0 <= fuel -> Q st ->
    exists t st', get_graphql_type_field fuel reference st = Returns t st' /\ Q st'.
Proof.
  intros (scalar & (Htd & Hed & Hs) & Href).
  destruct (names_class_converts _ _ Href) as (fuel0 & Hconv).
  exists fuel0. intros fuel st Hfuel HQ.
  pose proof (Q_registry scalar st HQ) as HQ'.
  destruct (get_scalar_type scalar st) as [t st'] eqn:Hget.
  destruct (Hconv (fuel - fuel0) st t st') as (r & Hr).
  { rewrite get_graphql_type_eq, Htd, Hed. unfold _is_scalar. rewrite Hs.
    unfold from_scalar. rewrite Hget. reflexivity. }
  replace (fuel0 + (fuel - fuel0)) with fuel in Hr by lia. eauto.
Qed.

Lemma scalar_arguments_convert arguments :
  Forall scalar_argument arguments ->
  exists fuel0, forall fuel acc st,
    fuel0 <= fuel -> Q st ->
    exists d st',
      foldM (fun graphql_arguments argument =>
               name <- assert_is_not_None (arg_name argument) ;;
               graphql_argument <- from_argument fuel argument ;;
               ret (dict_set name graphql_argument graphql_arguments))
            arguments acc st = Returns d st' /\ Q st'.
Proof.
  induction 1 as [|argument arguments [[name Hname] Hscalar] _ (fuel2 & IH)].
  - exists 0. intros fuel acc st _ HQ. exists acc, st. split; [reflexivity | exact HQ].
  - destruct (scalar_reference_converts _ Hscalar) as (fuel1 & H1).
    exists (max fuel1 fuel2). intros fuel acc st Hfuel HQ.
    destruct (H1 fuel st ltac:(lia) HQ) as (t & st1 & Ht & HQ1).
    rewrite foldM_cons, Hname. unfold assert_is_not_None.
    unfold bind at 1. unfold bind at 1. unfold ret at 1.
    unfold from_argument. unfold bind at 1.
    rewrite (bind_of_Returns _ _ _ _ _ Ht). unfold ret at 1. unfold ret at 1.
    apply IH; [lia | exact HQ1].
Qed.

Lemma field_over_converts field :
  field_over type_ field ->
  exists fuel0, forall fuel st,
    fuel0 <= fuel -> Q st ->
    exists graphql_field st', from_field fuel field st = Returns graphql_field st' /\ Q st'.
Proof.
  intros [Htype Hargs].
  assert (Ht : exists fuel1, forall fuel st,
             fuel1 <= fuel -> Q st ->
             exists t st',
               get_graphql_type_field fuel (Field field) st = Returns t st' /\ Q st').
  { destruct Htype; [apply reference_converts | apply scalar_reference_converts];
      assumption. }
  destruct Ht as (fuel1 & H1).
  destruct (scalar_arguments_convert _ Hargs) as (fuel2 & H2).
  exists (max fuel1 fuel2). intros fuel st Hfuel HQ.
  destruct (H1 fuel st ltac:(lia) HQ) as (t & st1 & Ht & HQ1).
  destruct (H2 fuel [] st1 ltac:(lia) HQ1) as (d & st' & Hd & HQ').
  change (from_arguments fuel (fd_arguments field) st1 = Returns d st') in Hd.
  unfold from_field. rewrite (bind_of_Returns _ _ _ _ _ Ht).
  destruct (fd_is_subscription field);
    rewrite (bind_of_Returns _ _ _ _ _ Hd); eexists _, _; (split; [reflexivity|exact HQ']).
Qed.

Lemma fields_over_convert fields :
  Forall (field_over type_) fields ->
  exists fuel0, forall fuel st,
    fuel0 <= fuel -> Q st ->
    exists pairs st',
      mapM (fun field => graphql_field <- from_field fuel field ;;
                         ret (fd_name field, graphql_field)) fields st =
      Returns pairs st' /\ Q st'.
Proof.
  induction 1 as [|field fields Hfield _ (fuel2 & IH)].
  - exists 0. intros fuel st _ HQ. exists [], st. split; [reflexivity | exact HQ].
  - destruct (field_over_converts _ Hfield) as (fuel1 & H1).
    exists (max fuel1 fuel2). intros fuel st Hfuel HQ.
    destruct (H1 fuel st ltac:(lia) HQ) as (graphql_field & st1 & Hgf & HQ1).
    destruct (IH fuel st1 ltac:(lia) HQ1) as (pairs & st' & Hpairs & HQ').
    eexists _, st'. split; [|exact HQ'].
    rewrite mapM_cons. unfold bind at 1. unfold bind at 1.
    rewrite Hgf. unfold ret at 1. rewrite (bind_of_Returns _ _ _ _ _ Hpairs).
    reflexivity.
Qed.

Lemma object_fields_convert source :
  Forall (field_over type_) (td_fields source) ->
  exists fuel0, forall fuel st,
    fuel0 <= fuel -> Q st ->
    exists graphql_fields st',
      call_thunk fuel (object_fields source) st = Returns graphql_fields st' /\ Q st'.
Proof.
  intros Hfields. destruct (fields_over_convert _ Hfields) as (fuel0 & H).
  exists fuel0. intros fuel st Hfuel HQ.
  destruct (H fuel st Hfuel HQ) as (pairs & st' & Hpairs & HQ').
  eexists _, st'. split; [|exact HQ'].
  unfold call_thunk. rewrite (bind_of_Returns _ _ _ _ _ Hpairs). reflexivity.
Qed.

End converts.

End target.

(** C4. Two object types [A] and [B], [A] with a field of type [B] and [B]
    with a field of type [A], whatever their other fields are.  On a fresh
    converter building either succeeds, and the new type is in the cache as
    soon as it is built, with its fields still in the closure.  From then on,
    whenever the closure of [A] is called and returns, the cache holds an
    object type under the name of [B], the fields of [A] of type [B] have
    that instance as their named type, and [A] is still in the cache;
    whenever the closure of [B] is called after that and returns, the fields
    of [B] of type [A] have the first instance of [A], and both entries are
    as they were.  The closures do return, at any call depth that allows for
    the lists of the fields, when the fields are of the other type or of
    scalar types and their arguments are of scalar types; [B] is then built
    from its own definition by the closure of [A].  (The scalar registry is
    taken to leave the entries of the cache as they are, and for the last
    part to write nothing under the names of [B] and its interfaces.) *)
Theorem mutual_references_build A B dA dB allocated0 :
  _type_definition (obj A) = Some dA ->
  _type_definition (obj B) = Some dB ->
  is_object_definition dA ->
  is_object_definition dB ->
  td_name dA <> td_name dB ->
  td_name dA ∉ interface_names dB ->
  td_name dB ∉ interface_names dA ->
  Exists (references B) (td_fields dA) ->
  Exists (references A) (td_fields dB) ->
  (exists gB st, from_object_type B (__init__ allocated0) = Returns gB st) /\
  exists gA st1,
    from_object_type A (__init__ allocated0) = Returns gA st1 /\
    type_map st1 !! td_name dA =
      Some {| definition := OfTypeDefinition dA; implementation := gA |} /\
    fields_of gA = Some (object_fields dA) /\
    type_map st1 !! td_name dB = None /\
    (forall st fuel fieldsA st2,
        type_map st1 ⊆ type_map st ->
        call_thunk fuel (object_fields dA) st = Returns fieldsA st2 ->
        exists gB,
          registered dB gB st2 /\
          resolved_to (td_fields dA) fieldsA B gB /\
          type_map st2 !! td_name dA =
            Some {| definition := OfTypeDefinition dA; implementation := gA |} /\
          forall st' fuel' fieldsB st3,
            type_map st2 ⊆ type_map st' ->
            call_thunk fuel' (object_fields dB) st' = Returns fieldsB st3 ->
            resolved_to (td_fields dB) fieldsB A gA /\
            type_map st3 !! td_name dA =
              Some {| definition := OfTypeDefinition dA; implementation := gA |} /\
            registered dB gB st3) /\
    (Forall (field_over B) (td_fields dA) ->
     Forall (field_over A) (td_fields dB) ->
     registry_apart (all_names dB) ->
     exists fuel0, forall fuel,
       fuel0 <= fuel ->
       exists fieldsA st2 gB fieldsB st3,
         call_thunk fuel (object_fields dA) st1 = Returns fieldsA st2 /\
         type_map st2 !! td_name dB =
           Some {| definition := OfTypeDefinition dB; implementation := gB |} /\
         fields_of gB = Some (object_fields dB) /\
         resolved_to (td_fields dA) fieldsA B gB /\
         call_thunk fuel (object_fields dB) st2 = Returns fieldsB st3 /\
         resolved_to (td_fields dB) fieldsB A gA).
Proof.
  intros HA HB HobjA HobjB Hne HAB HBA HexB HexA.
  assert (Hfresh : forall names, interfaces_at names (__init__ allocated0)).
  { intros names n ct _ Hct. simpl in Hct. rewrite lookup_empty in Hct. discriminate. }
  split.
  { destruct (from_object_type_ok B dB (__init__ allocated0) HB)
      as (ifs & st & _ & Hbuilt); [apply lookup_empty | apply Hfresh | eauto]. }
  destruct (from_object_type_ok A dA (__init__ allocated0) HA)
    as (ifsA & st1' & HaddA & HbuiltA); [apply lookup_empty | apply Hfresh |].
  simpl in HbuiltA.
  set (gA := GraphQLObjectType (allocated st1') (td_name dA) (object_fields dA) ifsA
               (td_origin dA) (td_description dA)) in *.
  set (st1 := {| type_map := <[td_name dA := {| definition := OfTypeDefinition dA;
                                                implementation := gA |}]> (type_map st1');
                 allocated := S (allocated st1') |}) in *.
  assert (HmissB : type_map st1 !! td_name dB = None).
  { simpl. rewrite lookup_insert_ne by exact Hne.
    rewrite (interfaces_added_outside _ _ _ _ HaddA HBA). apply lookup_empty. }
  assert (HatB : interfaces_at (interface_names dB) st1).
  { intros n ct Hin Hct. simpl in Hct.
    rewrite lookup_insert_ne in Hct by (intros <-; contradiction).
    destruct (HaddA n) as [E|(_ & _ & ct' & Hct' & Hi)].
    - rewrite E in Hct. simpl in Hct. rewrite lookup_empty in Hct. discriminate.
    - congruence. }
  assert (HhitA : type_map st1 !! td_name dA =
                  Some {| definition := OfTypeDefinition dA; implementation := gA |})
    by apply lookup_insert_eq.
  assert (Hafter : forall st fuel fieldsA st2,
             type_map st1 ⊆ type_map st ->
             call_thunk fuel (object_fields dA) st = Returns fieldsA st2 ->
             exists gB,
               registered dB gB st2 /\
               resolved_to (td_fields dA) fieldsA B gB /\
               type_map st2 !! td_name dA =
                 Some {| definition := OfTypeDefinition dA; implementation := gA |} /\
               forall st' fuel' fieldsB st3,
                 type_map st2 ⊆ type_map st' ->
                 call_thunk fuel' (object_fields dB) st' = Returns fieldsB st3 ->
                 resolved_to (td_fields dB) fieldsB A gA /\
                 type_map st3 !! td_name dA =
                   Some {| definition := OfTypeDefinition dA; implementation := gA |} /\
                 registered dB gB st3).
  { intros st fuel fieldsA st2 Hsub HcallA.
    destruct (call_thunk_resolves B dB HB HobjB _ _ _ _ _ HcallA)
      as (Hsub2 & HresB & HregB).
    destruct (HregB HexB) as (gB & HgB). exists gB.
    assert (HhitA2 : type_map st2 !! td_name dA =
                     Some {| definition := OfTypeDefinition dA; implementation := gA |}).
    { apply (lookup_weaken _ _ _ _ HhitA). etrans; eassumption. }
    split; [exact HgB|]. split; [exact (HresB _ HgB)|]. split; [exact HhitA2|].
    intros st' fuel' fieldsB st3 Hsub' HcallB.
    destruct (call_thunk_resolves A dA HA HobjA _ _ _ _ _ HcallB)
      as (Hsub3 & HresA & _).
    assert (HhitA3 : type_map st3 !! td_name dA =
                     Some {| definition := OfTypeDefinition dA; implementation := gA |}).
    { apply (lookup_weaken _ _ _ _ HhitA2). etrans; eassumption. }
    split; [|split; [exact HhitA3|]].
    - apply HresA. eexists. split; [exact HhitA3|]. split; reflexivity.
    - apply (registered_weaken _ _ st2); [etrans; eassumption | exact HgB]. }
  exists gA, st1.
  split; [exact HbuiltA|]. split; [exact HhitA|]. split; [reflexivity|].
  split; [exact HmissB|]. split; [exact Hafter|].
  intros HoverA HoverB Hapart.
  assert (HreadyB_registry : forall scalar st,
             ready dB st -> ready dB (get_scalar_type scalar st).2).
  { intros scalar st. eapply ready_registry; eassumption. }
  assert (HreadyB_build : forall st,
             ready dB st ->
             exists t st', from_object_type B st = Returns t st' /\ ready dB st').
  { intros st. eapply ready_build; eassumption. }
  assert (HbuiltA_registry : forall scalar st,
             built dA st -> built dA (get_scalar_type scalar st).2).
  { intros scalar st. apply built_registry. }
  assert (HbuiltA_build : forall st,
             built dA st ->
             exists t st', from_object_type A st = Returns t st' /\ built dA st').
  { intros st. eapply built_build; eassumption. }
  destruct (object_fields_convert B dB HB HobjB (ready dB)
              HreadyB_registry HreadyB_build dA HoverA) as (fuelA & HconvA).
  destruct (object_fields_convert A dA HA HobjA (built dA)
              HbuiltA_registry HbuiltA_build dB HoverB) as (fuelB & HconvB).
  exists (max fuelA fuelB). intros fuel Hfuel.
  destruct (HconvA fuel st1 ltac:(lia) (or_introl (conj HmissB HatB)))
    as (fieldsA & st2 & HcallA & HreadyB).
  destruct (Hafter st1 fuel fieldsA st2 ltac:(reflexivity) HcallA)
    as (gB & HgB & HresB & HhitA2 & Hthen).
  destruct HreadyB as [[HmissB2 _]|(id & ifs & HhitB)].
  { destruct HgB as (ct & Hct & _). congruence. }
  assert (HbuiltA2 : built dA st2) by (eexists _, _; exact HhitA2).
  destruct (HconvB fuel st2 ltac:(lia) HbuiltA2) as (fieldsB & st3 & HcallB & _).
  destruct (Hthen st2 fuel fieldsB st3 ltac:(reflexivity) HcallB) as (HresA & _).
  assert (gB = GraphQLObjectType id (td_name dB) (object_fields dB) ifs
                 (td_origin dB) (td_description dB)) as ->.
  { destruct HgB as (ct & Hct & <- & _). rewrite HhitB in Hct.
    injection Hct as <-. reflexivity. }
  eexists fieldsA, st2, _, fieldsB, st3.
  split; [exact HcallA|]. split; [exact HhitB|]. split; [reflexivity|].
  split; [exact HresB|]. split; [exact HcallB | exact HresA].
Qed.

End field_maps.

End GraphQLCoreConverter.

(** ** The converter on the small schema *)

Module OnSchema.

Definition from_object_type := from_object_type Schema.obj.
Definition get_graphql_type_field := get_graphql_type_field Schema.obj Schema.is_scalar Schema.get_scalar_type.
Definition get_graphql_type := get_graphql_type Schema.obj Schema.is_scalar Schema.get_scalar_type.
Definition from_union := from_union Schema.obj Schema.is_scalar Schema.get_scalar_type.
Definition from_input_object_type := from_input_object_type Schema.obj Schema.is_scalar Schema.get_scalar_type.
Definition from_input_field := from_input_field Schema.obj Schema.is_scalar Schema.get_scalar_type.
Definition from_argument := from_argument Schema.obj Schema.is_scalar Schema.get_scalar_type.
Definition from_field := from_field Schema.obj Schema.is_scalar Schema.get_scalar_type Schema.get_resolver.
Definition call_thunk := call_thunk Schema.obj Schema.is_scalar Schema.get_scalar_type Schema.get_resolver.

End OnSchema.

(** The methods on the schema [Library]. *)

Module OnLibrary.

Definition from_object_type := from_object_type Library.obj.
Definition call_thunk := call_thunk Library.obj Schema.is_scalar Schema.get_scalar_type Schema.get_resolver.

End OnLibrary.

Open Scope string_scope.

(** ** The properties on the small schema *)

(** C7 on the subscription field [ticks]. *)
Lemma subscription_field_split_witness :
  exists graphql_field st',
    OnSchema.from_field 3 Schema.ticks Schema.converter = Returns graphql_field st' /\
    gf_subscribe graphql_field = Some (PyCallable 100) /\
    gf_resolve graphql_field = lambda_event /\
    call (fun _ _ => None) (gf_resolve graphql_field) [PyLit (LInt 7); PyNone] =
    Some (PyLit (LInt 7)).
Proof.
  eexists _, _. split; [vm_compute; reflexivity|].
  destruct (subscription_field_split Schema.obj Schema.is_scalar
              Schema.get_scalar_type Schema.get_resolver
              3 Schema.ticks Schema.converter _ _ eq_refl eq_refl)
    as (Hsubscribe & Hresolve & Hcall).
  split; [exact Hsubscribe|]. split; [exact Hresolve|]. apply Hcall.
Defined.

(** C10 on the field [b] of [A]. *)
Lemma plain_field_resolver_witness :
  exists graphql_field st',
    OnSchema.from_field 3 (Schema.field "b" Schema.B false) Schema.converter =
    Returns graphql_field st' /\
    gf_subscribe graphql_field = None /\
    gf_resolve graphql_field = PyCallable 100.
Proof.
  eexists _, _. split; [vm_compute; reflexivity|].
  exact (plain_field_resolver Schema.obj Schema.is_scalar
           Schema.get_scalar_type Schema.get_resolver
           3 (Schema.field "b" Schema.B false) Schema.converter _ _ eq_refl eq_refl).
Defined.

(** C6 on an optional [int] argument and an optional [int] input field,
    each holding in turn [undefined], [UNSET], [None] and the value 10. *)
Lemma default_value_states_witness :
  (OnSchema.from_input_field 3 (Library.input_field "limit" Schema.int undefined)
     Schema.converter =
   Returns (mkGraphQLInputField (GraphQLScalarType 0 "Int") Undefined None) Schema.converter /\
   OnSchema.from_input_field 3 (Library.input_field "limit" Schema.int UNSET)
     Schema.converter =
   Returns (mkGraphQLInputField (GraphQLScalarType 0 "Int") Undefined None) Schema.converter /\
   OnSchema.from_input_field 3 (Library.input_field "limit" Schema.int PyNone)
     Schema.converter =
   Returns (mkGraphQLInputField (GraphQLScalarType 0 "Int") PyNone None) Schema.converter /\
   OnSchema.from_input_field 3 (Library.input_field "limit" Schema.int (PyLit (LInt 10)))
     Schema.converter =
   Returns (mkGraphQLInputField (GraphQLScalarType 0 "Int") (PyLit (LInt 10)) None) Schema.converter) /\
  (OnSchema.from_argument 2 (Schema.argument "first" Schema.int undefined)
     Schema.converter =
   Returns {| ga_type := GraphQLScalarType 0 "Int"; ga_default_value := Undefined;
              ga_description := None |} Schema.converter /\
   OnSchema.from_argument 2 (Schema.argument "first" Schema.int PyNone)
     Schema.converter =
   Returns {| ga_type := GraphQLScalarType 0 "Int"; ga_default_value := PyNone;
              ga_description := None |} Schema.converter /\
   OnSchema.from_argument 2 (Schema.argument "first" Schema.int (PyLit (LInt 10)))
     Schema.converter =
   Returns {| ga_type := GraphQLScalarType 0 "Int"; ga_default_value := (PyLit (LInt 10));
              ga_description := None |} Schema.converter) /\
  OnSchema.from_argument 2 (Schema.argument "first" Schema.int UNSET)
     Schema.converter =
   Returns {| ga_type := GraphQLScalarType 0 "Int"; ga_default_value := UNSET;
              ga_description := None |} Schema.converter.
Proof.
  destruct (default_value_states Schema.obj Schema.is_scalar
              Schema.get_scalar_type 2 Schema.converter)
    as (Hfield & Hargument & Hunset & _).
  split; [split; [|split; [|split]] | split; [split; [|split]|]].
  - exact (Hfield (Library.input_field "limit" Schema.int undefined) NotProvided _ _ eq_refl eq_refl).
  - exact (Hfield (Library.input_field "limit" Schema.int UNSET) NotProvided _ _ eq_refl eq_refl).
  - exact (Hfield (Library.input_field "limit" Schema.int PyNone) Null _ _ eq_refl eq_refl).
  - exact (Hfield (Library.input_field "limit" Schema.int (PyLit (LInt 10))) (Value (LInt 10)) _ _
             eq_refl eq_refl).
  - refine (Hargument (Schema.argument "first" Schema.int undefined) NotProvided _ _
              eq_refl _ eq_refl). discriminate.
  - refine (Hargument (Schema.argument "first" Schema.int PyNone) Null _ _
              eq_refl _ eq_refl). discriminate.
  - refine (Hargument (Schema.argument "first" Schema.int (PyLit (LInt 10)))
              (Value (LInt 10)) _ _ eq_refl _ eq_refl). discriminate.
  - exact (proj1 (proj2 (Hunset (Schema.argument "first" Schema.int UNSET)
                           _ _ eq_refl eq_refl))).
Defined.

(** C2 on [tags], a required list of optional [int]. *)
Lemma modifier_composition_order_witness :
  OnSchema.get_graphql_type_field 4 (Field Schema.tags) Schema.converter =
  Returns (GraphQLNonNull (GraphQLList (GraphQLScalarType 0 "Int"))) Schema.converter.
Proof.
  exact (proj2 (proj2 (modifier_composition_order Schema.obj Schema.is_scalar
                         Schema.get_scalar_type))
           1 (Field Schema.tags) (Field (Schema.field "tags" Schema.int true))
           Schema.converter (GraphQLScalarType 0 "Int") Schema.converter
           eq_refl eq_refl eq_refl eq_refl).
Defined.

(** C8 on the field [broken], whose type has no known kind. *)
Lemma unexpected_type_error_witness :
  OnSchema.get_graphql_type_field 2 (Field Schema.broken) Schema.converter =
  Raises (TypeError (Unexpected_type Schema.NoneType)).
Proof.
  exact (proj1 (unexpected_type_error Schema.obj Schema.is_scalar
                  Schema.get_scalar_type)
           0 (Field Schema.broken) Schema.converter eq_refl eq_refl eq_refl).
Defined.

(** C9 on the input builder given the class of the object type [A]. *)
Lemma wrong_kind_checks_witness :
  OnSchema.from_input_object_type 1 Schema.A Schema.converter =
  Raises (TypeError (is_not_an_input_type Schema.A)).
Proof.
  exact (proj1 (proj2 (wrong_kind_checks Schema.obj Schema.is_scalar
                         Schema.get_scalar_type))
           0 Schema.A Schema.A_definition Schema.converter eq_refl eq_refl).
Defined.

(** C9, the object builder: it is given the class of an input type, and
    builds an object type from it. *)
Lemma object_builder_accepts_input_definition :
  exists id interfaces st,
    _type_definition (Schema.obj Schema.PointInput) = Some Schema.PointInput_definition /\
    td_is_input Schema.PointInput_definition = true /\
    OnSchema.from_object_type Schema.PointInput Schema.converter =
    Returns (GraphQLObjectType id "PointInput"
               (object_fields Schema.PointInput_definition) interfaces
               Schema.PointInput None) st.
Proof. eexists _, _, _. repeat split. Qed.

(** C5, a union with an enum among its members: the build stops at the
    assertion, with [AssertionError]. *)
Lemma union_with_enum_member_fails_assertion :
  union_types Schema.AorColor_union = [Schema.A; Schema.Color] /\
  isinstance_GraphQLEnumType
    (match OnSchema.get_graphql_type 2 Schema.Color Schema.converter with
     | Returns t _ => t
     | Raises _ => GraphQLScalarType 0 ""
     end) = true /\
  OnSchema.from_union 3 Schema.AorColor_union Schema.converter = Raises AssertionError /\
  OnSchema.from_union 3 Schema.AorColor_union Schema.converter <>
  Raises UnallowedReturnTypeForUnion.
Proof. repeat split. vm_compute. discriminate. Qed.

(** C5 on the union of the object types [A] and [B]. *)
Lemma union_members_checked_witness :
  exists id_A id_B id interfaces_A st,
    OnSchema.from_union 3 Schema.AorB_union Schema.converter =
    Returns (GraphQLUnionType id "AorB"
               [GraphQLObjectType id_A "A" (object_fields Schema.A_definition)
                  interfaces_A Schema.A None;
                GraphQLObjectType id_B "B" (object_fields Schema.B_definition)
                  [] Schema.B None]
               None (get_type_resolver Schema.AorB_union self_type_map)) st.
Proof.
  eexists _, _, _, _, _.
  refine (proj1 (union_members_checked Schema.obj Schema.is_scalar
                   Schema.get_scalar_type)
            2 Schema.AorB_union Schema.converter _ _ eq_refl _ _).
  - vm_compute. reflexivity.
  - repeat constructor.
Defined.

(** C3, the interfaces: building the object type [A], which implements
    [Node], builds the interface type [Node] at once: it is in the result and
    in the cache before any closure has been called. *)
Lemma interfaces_built_with_the_type :
  exists id_Node id_A st,
    OnSchema.from_object_type Schema.A Schema.converter =
    Returns (GraphQLObjectType id_A "A" (object_fields Schema.A_definition)
               [GraphQLInterfaceType id_Node "Node"
                  (get_graphql_fields Schema.Node_definition) [] None]
               Schema.A None) st /\
    implementation <$> type_map st !! "Node" =
    Some (GraphQLInterfaceType id_Node "Node"
            (get_graphql_fields Schema.Node_definition) [] None) /\
    allocated st = 2 + allocated Schema.converter.
Proof. eexists _, _, _. repeat split. Qed.

(** C3 on the object type [C] and the input type [CInput], which have a
    field that cannot be converted: [C] is built and fails when its closure
    is called, [CInput] fails while it is built. *)
Lemma field_population_deferred_witness :
  (exists t st,
      OnSchema.from_object_type Schema.C Schema.converter = Returns t st /\
      fields_of t = Some (object_fields Schema.C_definition) /\
      OnSchema.call_thunk 2 (object_fields Schema.C_definition) st =
      Raises (TypeError (Unexpected_type Schema.NoneType))) /\
  OnSchema.from_input_object_type 4 Schema.CInput Schema.converter =
  Raises (TypeError (Unexpected_type Schema.NoneType)).
Proof.
  pose proof (field_population_deferred Schema.obj Schema.is_scalar
                Schema.get_scalar_type Schema.get_resolver)
    as (Hobject & _ & Hcall & Hinput & _).
  assert (Hbroken : unconvertible Schema.obj Schema.is_scalar Schema.broken)
    by (repeat split).
  split.
  - eexists _, _. split; [|split].
    + exact (Hobject Schema.C Schema.C_definition Schema.converter [] Schema.converter
               eq_refl eq_refl eq_refl).
    + reflexivity.
    + exact (proj1 (Hcall 0 Schema.C_definition Schema.broken [] _ eq_refl Hbroken)).
  - exact (Hinput 0 Schema.CInput Schema.CInput_definition Schema.broken []
             Schema.converter eq_refl eq_refl eq_refl Hbroken).
Defined.

(** C1 on the input type [PointInput], converted twice: two objects, and
    no entry in the cache. *)
Lemma input_object_type_rebuilt_witness :
  exists t1 st1 t2 st2 id1 id2,
    OnSchema.from_input_object_type 4 Schema.PointInput Schema.converter = Returns t1 st1 /\
    OnSchema.from_input_object_type 4 Schema.PointInput st1 = Returns t2 st2 /\
    type_map st2 !! "PointInput" = None /\
    id_of t1 = Some id1 /\ id_of t2 = Some id2 /\ id1 < id2 /\ t1 <> t2.
Proof.
  assert (Hlater : forall scalar st,
             allocated st <= allocated (Schema.get_scalar_type scalar st).2).
  { intros scalar st. unfold Schema.get_scalar_type.
    destruct (bool_decide (scalar = Schema.ID)); simpl; lia. }
  eexists _, _, _, _.
  destruct (input_object_type_rebuilt Schema.obj Schema.is_scalar
              Schema.get_scalar_type Hlater
              4 4 Schema.PointInput Schema.converter _ _ _ _ eq_refl eq_refl)
    as (id1 & id2 & H).
  exists id1, id2. split; [reflexivity|]. split; [reflexivity|].
  split; [reflexivity|]. exact H.
Defined.

(** C4 on the object types [Author] and [Book]: the field [books] of
    [Author] is a list of [Book] with two arguments, the fields [author] and
    [coauthors] of [Book] are an [Author] and a list of [Author], and each
    type has a scalar field [id] as well. *)
Lemma mutual_references_build_witness :
  (exists gAuthor st1 fieldsA st2 gBook fieldsB st3 books author coauthors,
      OnLibrary.from_object_type Library.Author Schema.converter =
        Returns gAuthor st1 /\
      OnLibrary.call_thunk 6 (object_fields Library.Author_definition) st1 =
        Returns fieldsA st2 /\
      implementation <$> type_map st2 !! "Book" = Some gBook /\
      dict_get (Some "books") fieldsA = Some books /\
      named_type (gf_type books) = gBook /\
      OnLibrary.call_thunk 6 (object_fields Library.Book_definition) st2 =
        Returns fieldsB st3 /\
      dict_get (Some "author") fieldsB = Some author /\
      named_type (gf_type author) = gAuthor /\
      dict_get (Some "coauthors") fieldsB = Some coauthors /\
      named_type (gf_type coauthors) = gAuthor) /\
  (exists gAuthor st1 fuel0,
      OnLibrary.from_object_type Library.Author Schema.converter =
        Returns gAuthor st1 /\
      forall fuel,
        fuel0 <= fuel ->
        exists fieldsA st2 fieldsB st3,
          OnLibrary.call_thunk fuel (object_fields Library.Author_definition) st1 =
            Returns fieldsA st2 /\
          OnLibrary.call_thunk fuel (object_fields Library.Book_definition) st2 =
            Returns fieldsB st3).
Proof.
  assert (Hint : scalar_class Library.obj Schema.is_scalar Schema.int)
    by (repeat split).
  assert (HID : scalar_class Library.obj Schema.is_scalar Schema.ID)
    by (repeat split).
  assert (Hbooks : references Library.Book Library.books).
  { eapply names_class_list; [reflexivity..|]. apply names_class_plain; reflexivity. }
  assert (Hauthor : references Library.Author
                      (Schema.field "author" Library.Author false)).
  { apply names_class_plain; reflexivity. }
  assert (Hcoauthors : references Library.Author Library.coauthors).
  { eapply names_class_list; [reflexivity..|]. apply names_class_plain; reflexivity. }
  assert (Hid : scalar_reference Library.obj Schema.is_scalar
                  (Field (Schema.field "id" Schema.ID false))).
  { exists Schema.ID. split; [exact HID | apply names_class_plain; reflexivity]. }
  destruct (mutual_references_build Library.obj Schema.is_scalar
              Schema.get_scalar_type Schema.get_resolver)
    with (A := Library.Author) (B := Library.Book)
         (dA := Library.Author_definition) (dB := Library.Book_definition)
         (allocated0 := 2)
    as (_ & gAuthor & st1 & HAuthor & _ & _ & _ & Hafter & Hreturn).
  { intros scalar st. unfold Schema.get_scalar_type.
    destruct (bool_decide (scalar = Schema.ID)); reflexivity. }
  { reflexivity. }
  { reflexivity. }
  { split; reflexivity. }
  { split; reflexivity. }
  { discriminate. }
  { intros [[=]|[]%not_elem_of_nil]%elem_of_cons. }
  { intros [[=]|[]%not_elem_of_nil]%elem_of_cons. }
  { apply Exists_cons_tl, Exists_cons_hd, Hbooks. }
  { apply Exists_cons_tl, Exists_cons_hd, Hauthor. }
  split.
  - destruct (OnLibrary.call_thunk 6 (object_fields Library.Author_definition) st1)
      as [fieldsA st2|e] eqn:HcallA.
    2: { vm_compute in HAuthor. injection HAuthor as <- <-.
         vm_compute in HcallA. discriminate. }
    destruct (Hafter st1 6 fieldsA st2 ltac:(reflexivity) HcallA)
      as (gBook & (ct & Hct & HgBook & _) & HresolvedA & _ & Hthen).
    destruct (OnLibrary.call_thunk 6 (object_fields Library.Book_definition) st2)
      as [fieldsB st3|e] eqn:HcallB.
    2: { vm_compute in HAuthor. injection HAuthor as <- <-.
         vm_compute in HcallA. injection HcallA as <- <-.
         vm_compute in HcallB. discriminate. }
    destruct (Hthen st2 6 fieldsB st3 ltac:(reflexivity) HcallB) as (HresolvedB & _).
    destruct (HresolvedA Library.books eq_refl Hbooks) as (books & Hbooks1 & Hbooks2).
    destruct (HresolvedB (Schema.field "author" Library.Author false) eq_refl Hauthor)
      as (author & Hauthor1 & Hauthor2).
    destruct (HresolvedB Library.coauthors eq_refl Hcoauthors)
      as (coauthors & Hcoauthors1 & Hcoauthors2).
    exists gAuthor, st1, fieldsA, st2, gBook, fieldsB, st3, books, author, coauthors.
    split; [exact HAuthor|]. split; [exact HcallA|].
    split; [change (td_name Library.Book_definition) with "Book" in Hct;
            rewrite Hct, <- HgBook; reflexivity|].
    split; [exact Hbooks1|]. split; [exact Hbooks2|]. split; [exact HcallB|].
    split; [exact Hauthor1|]. split; [exact Hauthor2|].
    split; [exact Hcoauthors1 | exact Hcoauthors2].
  - destruct Hreturn as (fuel0 & Hfuel0).
    { constructor; [split; [right; exact Hid | constructor]|].
      constructor; [|constructor]. split; [left; exact Hbooks|].
      constructor; [|constructor; [|constructor]].
      - split; [eexists; reflexivity|].
        exists Schema.int. split; [exact Hint | apply names_class_plain; reflexivity].
      - split; [eexists; reflexivity|].
        exists Schema.ID. split; [exact HID | apply names_class_plain; reflexivity]. }
    { constructor; [split; [right; exact Hid | constructor]|].
      constructor; [split; [left; exact Hauthor | constructor]|].
      constructor; [split; [left; exact Hcoauthors | constructor] | constructor]. }
    { intros scalar st n _. unfold Schema.get_scalar_type.
      destruct (bool_decide (scalar = Schema.ID)); reflexivity. }
    exists gAuthor, st1, fuel0. split; [exact HAuthor|]. intros fuel Hfuel.
    destruct (Hfuel0 fuel Hfuel)
      as (fieldsA & st2 & gBook & fieldsB & st3 & HcallA & _ & _ & _ & HcallB & _).
    exists fieldsA, st2, fieldsB, st3. split; [exact HcallA | exact HcallB].
Defined.

(** ** Further properties on the small schemas *)

(** The recursive input type [Filter] at call depth 50. *)
Lemma recursive_input_type_overflows_witness :
  from_input_object_type FilterSchema.obj Schema.is_scalar Schema.get_scalar_type
    50 FilterSchema.Filter Schema.converter = Raises RecursionError.
Proof.
  refine (recursive_input_type_overflows FilterSchema.obj Schema.is_scalar
            Schema.get_scalar_type 50 FilterSchema.Filter
            FilterSchema.Filter_definition (Schema.field "not" FilterSchema.Filter true)
            [Schema.field "equals" FilterSchema.int true] Schema.converter
            eq_refl eq_refl eq_refl _).
  repeat split.
Defined.

(** Calling the closure of [A] after [A] is built: what was cached stays. *)
Lemma cache_only_grows_witness :
  exists t st1 fields st2,
    OnSchema.from_object_type Schema.A Schema.converter = Returns t st1 /\
    OnSchema.call_thunk 2 (object_fields Schema.A_definition) st1 = Returns fields st2 /\
    type_map st1 ⊆ type_map st2.
Proof.
  assert (Hkeeps : forall scalar st,
             type_map st ⊆ type_map (Schema.get_scalar_type scalar st).2).
  { intros scalar st. unfold Schema.get_scalar_type.
    destruct (bool_decide (scalar = Schema.ID)); reflexivity. }
  eexists _, _, _, _. split; [vm_compute; reflexivity|].
  split; [vm_compute; reflexivity|].
  refine (proj2 (proj2 (proj2 (proj2 (proj2 (proj2 (proj2 (proj2 (proj2 (proj2
            (cache_only_grows Schema.obj Schema.is_scalar Schema.get_scalar_type
               Schema.get_resolver Hkeeps 2))))))))))
            (object_fields Schema.A_definition) _ _ _ _).
  vm_compute. reflexivity.
Defined.

(** The class of the input type [PointInput] through the dispatcher. *)
Lemma dispatch_by_kind_witness :
  exists t st' id fields,
    OnSchema.get_graphql_type 5 Schema.PointInput Schema.converter = Returns t st' /\
    t = GraphQLInputObjectType id "PointInput" fields None.
Proof.
  pose proof (dispatch_by_kind Schema.obj Schema.is_scalar Schema.get_scalar_type
                5 Schema.PointInput Schema.converter) as H.
  edestruct H as (id & fields & Ht); [vm_compute; reflexivity|].
  eexists _, _, id, fields. split; [vm_compute; reflexivity | exact Ht].
Defined.

(** [tags], a required list, converts to a [GraphQLNonNull]. *)
Lemma non_null_iff_required_witness :
  exists t st',
    OnSchema.get_graphql_type_field 4 (Field Schema.tags) Schema.converter =
    Returns t st' /\
    isinstance_GraphQLNonNull t = true.
Proof.
  assert (Hscalar : forall scalar st,
             isinstance_GraphQLScalarType (Schema.get_scalar_type scalar st).1 = true).
  { intros scalar st. unfold Schema.get_scalar_type.
    destruct (bool_decide (scalar = Schema.ID)); reflexivity. }
  eexists _, _. split; [vm_compute; reflexivity|].
  refine (proj1 (non_null_iff_required Schema.obj Schema.is_scalar
                   Schema.get_scalar_type Hscalar 4 (Field Schema.tags)
                   Schema.converter _ _ _)).
  vm_compute. reflexivity.
Defined.

(** [tags] at call depth 4 and at call depth 40. *)
Lemma result_independent_of_depth_witness :
  OnSchema.get_graphql_type_field 40 (Field Schema.tags) Schema.converter =
  OnSchema.get_graphql_type_field 4 (Field Schema.tags) Schema.converter.
Proof.
  refine (proj1 (result_independent_of_depth Schema.obj Schema.is_scalar
                   Schema.get_scalar_type Schema.get_resolver 4 40 _)
            (Field Schema.tags) Schema.converter _).
  - lia.
  - vm_compute. discriminate.
Defined.

(** A required field and an optional argument of type [B]. *)
Lemma two_references_one_instance_witness :
  exists t1 st1 t2,
    OnSchema.get_graphql_type_field 3 (Field (Schema.field "b" Schema.B false))
      Schema.converter = Returns t1 st1 /\
    OnSchema.get_graphql_type_field 3
      (Argument (Schema.argument "other" Schema.B undefined)) st1 = Returns t2 st1 /\
    named_type t2 = named_type t1.
Proof.
  eexists _, _, _. split; [vm_compute; reflexivity|].
  split; [vm_compute; reflexivity|].
  refine (proj1 (two_references_one_instance Schema.obj Schema.is_scalar
                   Schema.get_scalar_type 3 3
                   (Field (Schema.field "b" Schema.B false))
                   (Argument (Schema.argument "other" Schema.B undefined))
                   Schema.converter _ _ _ _
                   eq_refl eq_refl eq_refl eq_refl eq_refl eq_refl _ _));
    vm_compute; reflexivity.
Defined.
